(** * s5cmd: sync strategies, retry controller, disk-space guard,
      bandwidth limiter and the max-delete cap of the sync planner.

    A shallow embedding of the Go sources under [command/] together with the
    properties the design document states about them. *)

From Stdlib Require Import ZArith List Bool Ascii String Lia.
From Stdlib Require Import QArith Qround Qminmax Qpower Lqa.
From Stdlib Require Import DecimalString Floats.SpecFloat.
From Stdlib Require Floats Uint63.
Import ListNotations.

Local Open Scope string_scope.
Local Open Scope Z_scope.

(* ================================================================== *)
(** ** The fragment of Go's [strings] package the sources call *)
(* ================================================================== *)

Module GoStrings.

(** [strings.Contains(s, substr)]. *)
Fixpoint Contains (s substr : string) : bool :=
    String.prefix substr s
    || match s with
       | EmptyString => false
       | String _ rest => Contains rest substr
       end.

Definition is_upper (c : ascii) : bool :=
    let n := nat_of_ascii c in (65 <=? n)%nat && (n <=? 90)%nat.

Definition is_lower (c : ascii) : bool :=
    let n := nat_of_ascii c in (97 <=? n)%nat && (n <=? 122)%nat.

Definition lower_char (c : ascii) : ascii :=
    if is_upper c then ascii_of_nat (nat_of_ascii c + 32) else c.

Definition upper_char (c : ascii) : ascii :=
    if is_lower c then ascii_of_nat (nat_of_ascii c - 32) else c.

Fixpoint map_chars (f : ascii -> ascii) (s : string) : string :=
    match s with
    | EmptyString => EmptyString
    | String c rest => String (f c) (map_chars f rest)
    end.

(** [strings.ToLower] and [strings.ToUpper], on the ASCII letters. *)
Definition ToLower : string -> string := map_chars lower_char.
Definition ToUpper : string -> string := map_chars upper_char.

(** White space as [strings.TrimSpace] sees it in the ASCII range:
      tab, line feed, vertical tab, form feed, carriage return, space. *)
Definition is_space (c : ascii) : bool :=
    let n := nat_of_ascii c in
    ((9 <=? n)%nat && (n <=? 13)%nat) || (n =? 32)%nat.

Fixpoint trim_left (s : string) : string :=
    match s with
    | String c rest => if is_space c then trim_left rest else s
    | EmptyString => EmptyString
    end.

Fixpoint rev_onto (s acc : string) : string :=
    match s with
    | EmptyString => acc
    | String c rest => rev_onto rest (String c acc)
    end.

Definition rev_string (s : string) : string := rev_onto s EmptyString.

Definition trim_right (s : string) : string :=
    rev_string (trim_left (rev_string s)).

Definition TrimSpace (s : string) : string := trim_right (trim_left s).

(** [strings.HasSuffix(s, suffix)]. *)
Definition HasSuffix (s suffix : string) : bool :=
    String.prefix (rev_string suffix) (rev_string s).

(** [strings.TrimSuffix(s, suffix)]: [s] without the suffix when it
      ends with it, [s] itself otherwise. *)
Definition TrimSuffix (s suffix : string) : string :=
    if HasSuffix s suffix
    then String.substring 0 (String.length s - String.length suffix) s
    else s.

End GoStrings.

(* ================================================================== *)
(** ** Sync strategies *)
(* ================================================================== *)

Module SyncStrategy.
Import GoStrings.

(** [url.URL], as far as the strategies look at it: the remote/local tag
      and the printed form, which for a local object is its path. *)
Record URL := mkURL {
    IsRemote : bool;
    url_String : string
  }.

(** [storage.Object]; sizes are [int64], the modification time is an
      instant on the time line (the listers always set the pointer). *)
Record Object := mkObject {
    obj_URL : URL;
    Size : Z;
    ModTime : Z;
    Etag : string
  }.

(** The sentinel errors of [errorpkg] a strategy answers with; [None]
      stands for the [nil] error, "copy is needed". *)
Inductive SkipReason :=
  | ErrObjectSizesMatch
  | ErrObjectIsNewerAndSizesMatch
  | ErrObjectEtagsMatch.

Inductive Strategy := SizeOnlyStrategy | HashStrategy | SizeAndModificationStrategy.

Definition NewStrategy (sizeOnly hashOnly : bool) : Strategy :=
    if sizeOnly then SizeOnlyStrategy
    else if hashOnly then HashStrategy
    else SizeAndModificationStrategy.

Definition SizeOnly_ShouldSync (srcObj dstObj : Object) : option SkipReason :=
    if Size srcObj =? Size dstObj then Some ErrObjectSizesMatch else None.

(** [time.Time.After]. *)
Definition After (t u : Z) : bool := u <? t.

Definition SizeAndModification_ShouldSync (srcObj dstObj : Object)
    : option SkipReason :=
    let srcMod := ModTime srcObj in
    let dstMod := ModTime dstObj in
    if After srcMod dstMod then None
    else if negb (Size srcObj =? Size dstObj) then None
    else Some ErrObjectIsNewerAndSizesMatch.

Definition isMultipartETag (etag : string) : bool := Contains etag "-".

(** What opening and streaming a local file through MD5 can end in. *)
Inductive FileRead :=
  | OpenFails
  | CopyFails
  | Digest (sum : list N).

Definition hex_digit (n : N) : ascii :=
    ascii_of_N (if (n <? 10)%N then 48 + n else 87 + n)%N.

(** [hex.EncodeToString]. *)
Fixpoint EncodeToString (bytes : list N) : string :=
    match bytes with
    | [] => EmptyString
    | b :: rest =>
        String (hex_digit (b / 16)%N)
          (String (hex_digit (b mod 16)%N) (EncodeToString rest))
    end.

Section WithFileSystem.

(** The local file system: for a path, the outcome of [os.OpenFile]
        followed by [io.CopyBuffer] into an MD5 state, with the 16 bytes of
        [md5Obj.Sum(nil)] on success. *)
Variable fs : string -> FileRead.

Definition getHash (obj : Object) : string :=
      if IsRemote (obj_URL obj) || negb (Etag obj =? EmptyString)%string then Etag obj
      else
        match fs (url_String (obj_URL obj)) with
        | OpenFails => EmptyString
        | CopyFails => EmptyString
        | Digest sum => EncodeToString sum
        end.

Definition Hash_ShouldSync (srcObj dstObj : Object) : option SkipReason :=
      if negb (Size srcObj =? Size dstObj) then None
      else
        let srcHash := getHash srcObj in
        let dstHash := getHash dstObj in
        if isMultipartETag srcHash || isMultipartETag dstHash then None
        else if (srcHash =? dstHash)%string then Some ErrObjectEtagsMatch
        else None.

Definition ShouldSync (s : Strategy) (srcObj dstObj : Object)
      : option SkipReason :=
      match s with
      | SizeOnlyStrategy => SizeOnly_ShouldSync srcObj dstObj
      | HashStrategy => Hash_ShouldSync srcObj dstObj
      | SizeAndModificationStrategy => SizeAndModification_ShouldSync srcObj dstObj
      end.

End WithFileSystem.

End SyncStrategy.


(* ================================================================== *)
(** ** Go [error] values *)
(* ================================================================== *)

Module GoError.

(** An [error] is either made by [errors.New] (the context errors are of
    this kind too) or by [fmt.Errorf] with a [%w] verb, which keeps the
    wrapped error next to the formatted message. [None] is [nil]. *)
#[warnings="-register-all"]
Inductive error :=
| errorString (msg : string)
| wrapError (msg : string) (inner : option error).

Definition Error (e : error) : string :=
  match e with
  | errorString msg => msg
  | wrapError msg _ => msg
  end.

(** How [%w] and [%v] print an error operand. *)
Definition verb_w (e : option error) : string :=
  match e with
  | Some e => Error e
  | None => "%!w(<nil>)"
  end.

(** How [%d] prints an [int]. *)
Definition verb_d (n : Z) : string :=
  DecimalString.NilZero.string_of_int (Z.to_int n).

(** [fmt.Errorf(prefix + "%w", inner)]. *)
Definition Errorf_w (prefix : string) (inner : option error) : error :=
  wrapError (prefix ++ verb_w inner) inner.

Definition Unwrap (e : error) : option error :=
  match e with
  | errorString _ => None
  | wrapError _ inner => inner
  end.

End GoError.

(* ================================================================== *)
(** ** Retry controller ([retry_logic.go]) *)
(* ================================================================== *)

Module Retry.
Import GoStrings GoError.

(** Durations are [time.Duration]: whole nanoseconds. The [float64]
    arithmetic of [CalculateDelay] is carried out over the rationals, that
    is without the rounding of the machine operations; the final
    conversion [time.Duration(delay)] truncates toward zero as in Go. *)
Record RetryConfig := mkRetryConfig {
  MaxRetries : Z;
  BaseDelay : Z;
  MaxDelay : Z;
  BackoffExponent : Q;
  Jitter : bool
}.

Definition Millisecond : Z := 1000000.
Definition Second : Z := 1000000000.

Definition DefaultClientCopyRetryConfig : RetryConfig :=
  {| MaxRetries := 3;
     BaseDelay := 1 * Second;
     MaxDelay := 30 * Second;
     BackoffExponent := 2;
     Jitter := true |}.

Definition retryablePatterns : list string :=
  [ "connection"; "timeout"; "temporary failure"; "service unavailable";
    "internal error"; "slow down"; "throttling"; "rate limit";
    "too many requests"; "request timeout"; "dial tcp"; "connection reset";
    "connection refused"; "no such host"; "i/o timeout";
    "context deadline exceeded"; "eof"; "unexpected eof" ].

Definition awsRetryablePatterns : list string :=
  [ "provisionedthroughputexceeded"; "throttlingexception";
    "requestlimitexceeded"; "serviceunavailable"; "internalerror";
    "slowdown"; "requesttimeout" ].

Definition IsRetryableError (err : option error) : bool :=
  match err with
  | None => false
  | Some e =>
      let errStr := ToLower (Error e) in
      if existsb (Contains errStr) retryablePatterns then true
      else if existsb (Contains errStr) awsRetryablePatterns then true
      else false
  end.

Definition Qltb (x y : Q) : bool := negb (Qle_bool y x).

(** The conversion of a [float64] to an integer type: the fraction is
    discarded (truncation toward zero). *)
Definition Qtrunc (x : Q) : Z := Z.quot (Qnum x) (Zpos (Qden x)).

(** [nominal rc i] is [float64(BaseDelay) * math.Pow(BackoffExponent, i)]. *)
Definition nominal (rc : RetryConfig) (attempt : Z) : Q :=
  (inject_Z (BaseDelay rc) * BackoffExponent rc ^ attempt)%Q.

(** [CalculateDelay]; [r] is the number [rand.Float64()] draws, a value
    of the half-open interval from 0 to 1. *)
Definition CalculateDelay (rc : RetryConfig) (r : Q) (attempt : Z) : Z :=
  if attempt <? 0 then 0
  else
    let delay := nominal rc attempt in
    let delay :=
      if Jitter rc && Qltb 0 delay then
        let jitterRange := (delay * (1 # 4))%Q in
        let jitter := ((r - (1 # 2)) * 2 * jitterRange)%Q in
        (delay + jitter)%Q
      else delay in
    let delay := if Qltb delay 0 then inject_Z (BaseDelay rc) else delay in
    let delay :=
      if Qltb (inject_Z (MaxDelay rc)) delay then inject_Z (MaxDelay rc)
      else delay in
    Qtrunc delay.

(** The debug events [WithRetry] hands to the logger. *)
Inductive DebugMessage :=
| SucceededAfter (operationName : string) (retries : Z)
| NonRetryable (operationName : string) (err : error)
| Retrying (operationName : string) (attempt total delay : Z) (err : error)
| FailedAfter (operationName : string) (total : Z) (lastErr : option error).

Section WithRetry.

(** The operation is a closure over some state of its own. *)
Variable St : Type.
Variable operation : St -> option error * St.

(** The context, as the [select] of the loop sees it: for the wait that
    follows attempt [attempt] and lasts [delay], [Some e] when
    [ctx.Done()] is the case chosen, [e] being [ctx.Err()]; [None] when
    the timer is. *)
Variable ctx : Z -> Z -> option error.

(** The draws of [rand.Float64], one per computed delay. *)
Variable rnd : Z -> Q.

Variable config : RetryConfig.
Variable operationName : string.

(** What leaves the [for] loop: a [return] with its value, or falling
    out of it (by [break] or by the loop condition) with [lastErr]. *)
Inductive LoopExit :=
| Return (err : option error)
| Exhausted (lastErr : option error).

(** The [for] loop from [attempt] on; [fuel] counts the iterations the
    loop condition [attempt <= config.MaxRetries] still admits. *)
Fixpoint loop (fuel : nat) (attempt : Z) (lastErr : option error)
    (st : St) (log : list DebugMessage) : LoopExit * St * list DebugMessage :=
  match fuel with
  | O => (Exhausted lastErr, st, log)
  | S fuel' =>
      let '(err, st) := operation st in
      match err with
      | None =>
          let log :=
            if 0 <? attempt
            then app log [SucceededAfter operationName attempt] else log in
          (Return None, st, log)
      | Some e =>
          let lastErr := Some e in
          if attempt =? MaxRetries config then (Exhausted lastErr, st, log)
          else if negb (IsRetryableError (Some e)) then
            (Return (Some e), st, app log [NonRetryable operationName e])
          else
            let delay := CalculateDelay config (rnd attempt) attempt in
            let log :=
              app log [Retrying operationName (attempt + 1)
                         (MaxRetries config + 1) delay e] in
            match ctx attempt delay with
            | Some ctxErr => (Return (Some ctxErr), st, log)
            | None => loop fuel' (attempt + 1) lastErr st log
            end
      end
  end.

(** The state of the operation before its call number [k], counted from
    0, and what that call answers. *)
Fixpoint state_before (k : nat) (st : St) : St :=
  match k with
  | O => st
  | S k' => state_before k' (snd (operation st))
  end.

Definition call_result (k : nat) (st : St) : option error :=
  fst (operation (state_before k st)).

Definition WithRetry (st : St) : option error * St * list DebugMessage :=
  match loop (Z.to_nat (MaxRetries config + 1)) 0 None st [] with
  | (Return err, st, log) => (err, st, log)
  | (Exhausted lastErr, st, log) =>
      (Some (Errorf_w ("operation failed after "
                         ++ verb_d (MaxRetries config + 1) ++ " retries: ")
                      lastErr),
       st,
       app log [FailedAfter operationName (MaxRetries config + 1) lastErr])
  end.

End WithRetry.

(** An operation given by the list of its successive results: call
    number [k] answers the [k]-th entry, and [nil] once the list is used
    up. The state is the number of calls made so far. *)
Definition scripted (results : list (option error)) (calls : nat)
  : option error * nat :=
  (nth calls results None, S calls).

End Retry.

(* ================================================================== *)
(** ** The max-delete cap of the sync planner *)
(* ================================================================== *)

Module Planner.
Import GoError SyncStrategy.

(** The decision as [TestMaxDeleteLogic] writes it down, "the logic that
    would be used in planRun". *)
Definition shouldDelete (maxDelete filesToDelete : Z) : bool :=
  (filesToDelete =? 0) || ((maxDelete <? 0) || (filesToDelete <=? maxDelete)).

(** The table of [TestMaxDeleteLogic]: limit, number of files, expected
    decision, expected message. *)
Definition maxDeleteCases : list (Z * Z * bool * string) :=
  [ (-1, 100, true, EmptyString);
    (10, 5, true, EmptyString);
    (10, 10, true, EmptyString);
    (5, 10, false, "refusing to delete 10 files; more than max-delete limit of 5");
    (0, 1, false, "refusing to delete 1 files; more than max-delete limit of 0");
    (0, 0, true, EmptyString) ].

Inductive SyncPlanItem :=
| Copy (src dst : URL)
| Delete (url : URL).

Definition isDelete (item : SyncPlanItem) : bool :=
  match item with
  | Delete _ => true
  | Copy _ _ => false
  end.

Definition refusal (count maxDelete : Z) : string :=
  "refusing to delete " ++ verb_d count
    ++ " files; more than max-delete limit of " ++ verb_d maxDelete.

(** Modelled from the spec: [Sync.planRun], the planner itself, is not
    among the sources (its tests are). This is the treatment of the
    destination-only entries: dropped without [delete]; otherwise counted
    once the stream is drained and, if [maxDelete >= 0] and the count
    exceeds it, nothing is emitted and a single error is surfaced;
    otherwise one [Delete] per entry. *)
Definition planDeletes (delete : bool) (maxDelete : Z) (onlyDest : list URL)
  : list SyncPlanItem * list string :=
  if negb delete then ([], [])
  else
    let count := Z.of_nat (List.length onlyDest) in
    if (0 <=? maxDelete) && (maxDelete <? count)
    then ([], [refusal count maxDelete])
    else (map Delete onlyDest, []).

Section PlanRun.

(** The URL collaborator: the destination root joined with the key of a
    source entry relative to its own root. *)
Variable join : URL -> URL -> URL.
Variable fs : string -> FileRead.
Variable strategy : Strategy.

(** Modelled from the spec: the plan for the three streams of the differ.
    A [Copy] for every source-only entry and for every common pair the
    strategy answers [nil] for, then the deletions. *)
Definition planRun (delete : bool) (maxDelete : Z) (dsturl : URL)
    (onlySource onlyDest : list URL) (common : list (Object * Object))
  : list SyncPlanItem * list string :=
  let copies := map (fun src => Copy src (join dsturl src)) onlySource in
  let synced :=
    flat_map
      (fun pair : Object * Object =>
         match ShouldSync fs strategy (fst pair) (snd pair) with
         | None => [Copy (obj_URL (fst pair)) (obj_URL (snd pair))]
         | Some _ => []
         end)
      common in
  let '(deletes, errors) := planDeletes delete maxDelete onlyDest in
  (app copies (app synced deletes), errors).

End PlanRun.

End Planner.

(* ================================================================== *)
(** ** Disk-space guard *)
(* ================================================================== *)

(** The [float64] arithmetic of the guard, on the IEEE 754 binary64
    specification of the standard library. *)
Module Float64.

Definition prec : Z := 53.
Definition emax : Z := 1024.

(** [float64(n)] for an integer [n]: the nearest binary64, ties to even. *)
Definition of_int (n : Z) : spec_float := binary_normalize prec emax n 0 false.

Definition mul : spec_float -> spec_float -> spec_float := SFmul prec emax.

(** The constant [1.2]: the binary64 nearest to 6/5, which is
    5404319552844595 / 2^52. *)
Definition c1_2 : spec_float := S754_finite false 5404319552844595 (-52).

Definition minInt64 : Z := - 2 ^ 63.
Definition maxInt64 : Z := 2 ^ 63 - 1.

(** [int64(f)]: the fraction is discarded. For a value that does not fit
    (and for infinities and NaN) the language leaves the result to the
    implementation; amd64 answers the smallest [int64]. *)
Definition to_int64 (f : spec_float) : Z :=
  match f with
  | S754_zero _ => 0
  | S754_finite s m e =>
      let a := if 0 <=? e then Zpos m * 2 ^ e else Zpos m / 2 ^ (- e) in
      let v := if s then - a else a in
      if (minInt64 <=? v) && (v <=? maxInt64) then v else minInt64
  | S754_infinity _ => minInt64
  | S754_nan => minInt64
  end.

(** Where the bits that a shift by [k] to the right removes from [M]
    stand, relative to one half of the last place kept. *)
Definition loc_of (M : Z) (k : Z) : location :=
  if M mod 2 ^ k =? 0 then loc_Exact
  else loc_Inexact (2 * (M mod 2 ^ k) ?= 2 ^ k).

End Float64.

Module DiskSpace.
Import GoError.

Inductive result (A : Type) :=
| Ok (a : A)
| Err (e : error).
Arguments Ok {A} a.
Arguments Err {A} e.

(** [requiredSpace := int64(float64(obj.Size) * 1.2)]. *)
Definition requiredSpace (size : Z) : Z :=
  Float64.to_int64 (Float64.mul (Float64.of_int size) Float64.c1_2).

Definition insufficient (requiredSpace free : Z) : error :=
  errorString ("insufficient disk space: need " ++ verb_d requiredSpace
               ++ " bytes, have " ++ verb_d free ++ " bytes available").

(** [Copy.validateDiskSpace], given what its three calls answer:
    [storage.NewRemoteClient], [srcClient.Stat] (the size of the object)
    and [getAvailableDiskSpace]. Go evaluates them in this order and
    stops at the first failure. *)
Definition validateDiskSpace (newClient : option error) (stat : result Z)
    (available : result Z) : option error :=
  match newClient with
  | Some err => Some (Errorf_w "failed to create source client: " (Some err))
  | None =>
      match stat with
      | Err err => Some (Errorf_w "failed to get source object info: " (Some err))
      | Ok size =>
          match available with
          | Err err => Some (Errorf_w "failed to check disk space: " (Some err))
          | Ok free =>
              let requiredSpace := requiredSpace size in
              if free <? requiredSpace
              then Some (insufficient requiredSpace free)
              else None
          end
      end
  end.

Definition isErr {A : Type} (r : result A) : bool :=
  match r with
  | Err _ => true
  | Ok _ => false
  end.

(** The operating system as [getAvailableDiskSpace] meets it. *)
Record OS := mkOS {
  GOOS : string;
  (** [os.Stat] succeeds and reports a directory *)
  isDir : string -> bool;
  (** [filepath.Dir] *)
  Dir : string -> string;
  (** [os.TempDir] *)
  TempDir : string;
  (** [os.CreateTemp] in a directory: [Some err] when it fails *)
  CreateTemp : string -> option error;
  (** what [GetDiskFreeSpaceExW] stores in [freeBytesAvailable], or the
      error when the call answers 0 *)
  GetDiskFreeSpaceEx : string -> result Z;
  (** [syscall.UTF16PtrFromString]: [Some err] on a path with a NUL *)
  UTF16PtrFromString : string -> option error;
  (** the free bytes a filesystem-statistics call (statfs) reports for
      the volume of a directory; the truth about the disk *)
  statfsFree : string -> Z
}.

Definition isWindows (os : OS) : bool := (GOOS os =? "windows")%string.

(** The loop that walks up to an existing directory. [fuel] bounds the
    number of iterations; [None] when it runs out. *)
Fixpoint findExisting (os : OS) (fuel : nat) (checkPath : string)
  : option string :=
  if negb (checkPath =? "/")%string && negb (checkPath =? ".")%string
     && negb (checkPath =? EmptyString)%string
  then
    if isDir os checkPath then Some checkPath
    else
      let checkPath := Dir os checkPath in
      if isWindows os && (Z.of_nat (String.length checkPath) <=? 3)
      then Some checkPath
      else
        match fuel with
        | O => None
        | S fuel' => findExisting os fuel' checkPath
        end
  else Some checkPath.

Definition checkPathOf (os : OS) (found : string) : string :=
  if (found =? EmptyString)%string then TempDir os else found.

Definition GiB : Z := 1024 * 1024 * 1024.

(** [disk_space_validator.go]: the probe and a constant, on every
    platform. *)
Module Simple.

Definition getAvailableDiskSpace (os : OS) (fuel : nat) (path : string)
  : option (result Z) :=
  match findExisting os fuel path with
  | None => None
  | Some found =>
      let checkPath := checkPathOf os found in
      match CreateTemp os checkPath with
      | Some err => Some (Err (Errorf_w "cannot write to disk: " (Some err)))
      | None => Some (Ok (10 * GiB))
      end
  end.

End Simple.

(** The variant that switches on [runtime.GOOS]. *)
Module Platform.

Definition getFallbackDiskSpace (os : OS) (path : string) : result Z :=
  match CreateTemp os path with
  | Some err => Err (Errorf_w "cannot write to disk: " (Some err))
  | None => Ok (1 * GiB)
  end.

Definition getUnixDiskSpace (os : OS) (path : string) : result Z :=
  getFallbackDiskSpace os path.

Definition getWindowsDiskSpace (os : OS) (path : string) : result Z :=
  if negb (isWindows os)
  then Err (errorString ("Windows disk space check not supported on " ++ GOOS os))
  else
    match UTF16PtrFromString os path with
    | Some err => Err (Errorf_w "failed to convert path to UTF16: " (Some err))
    | None =>
        match GetDiskFreeSpaceEx os path with
        | Err err => Err (Errorf_w "GetDiskFreeSpaceEx failed: " (Some err))
        | Ok freeBytesAvailable => Ok freeBytesAvailable
        end
    end.

Definition unixNames : list string :=
  [ "darwin"; "linux"; "freebsd"; "openbsd"; "netbsd" ].

Definition isUnix (os : OS) : bool :=
  existsb (String.eqb (GOOS os)) unixNames.

Definition getAvailableDiskSpace (os : OS) (fuel : nat) (path : string)
  : option (result Z) :=
  match findExisting os fuel path with
  | None => None
  | Some found =>
      let checkPath := checkPathOf os found in
      if isWindows os then Some (getWindowsDiskSpace os checkPath)
      else if isUnix os then Some (getUnixDiskSpace os checkPath)
      else Some (getFallbackDiskSpace os checkPath)
  end.

End Platform.

End DiskSpace.

(* ================================================================== *)
(** ** Bandwidth limiter ([bandwidth_limiter.go], [config_validator.go]) *)
(* ================================================================== *)

Module Bandwidth.
Import GoStrings GoError.
Import DiskSpace (result, Ok, Err, isErr).

Definition digit_of (c : ascii) : option Z :=
  let n := Z.of_nat (nat_of_ascii c) in
  if (48 <=? n) && (n <=? 57) then Some (n - 48) else None.

(** Reads the digits [s] starts with: the number read so far, how many
    digits were read, and what follows them. *)
Fixpoint read_digits (s : string) (acc count : Z) : Z * Z * string :=
  match s with
  | EmptyString => (acc, count, s)
  | String c rest =>
      match digit_of c with
      | Some d => read_digits rest (10 * acc + d) (count + 1)
      | None => (acc, count, s)
      end
  end.

Definition quote (s : string) : string :=
  String (ascii_of_nat 34) (s ++ String (ascii_of_nat 34) EmptyString).

Definition syntaxError (s : string) : error :=
  errorString ("strconv.ParseFloat: parsing " ++ quote s ++ ": invalid syntax").

Definition rangeError (s : string) : error :=
  errorString ("strconv.ParseFloat: parsing " ++ quote s ++ ": value out of range").

Definition read_sign (s : string) : bool * string :=
  match s with
  | String "+" rest => (false, rest)
  | String "-" rest => (true, rest)
  | _ => (false, s)
  end.

(** The exponent part: [None] when an exponent letter is there without a
    digit after it. *)
Definition read_exponent (s : string) : option (Z * string) :=
  match s with
  | String c rest =>
      if (c =? "e")%char || (c =? "E")%char then
        let '(neg, rest) := read_sign rest in
        let '(e, n, rest) := read_digits rest 0 0 in
        if n =? 0 then None else Some (if neg then - e else e, rest)
      else Some (0, s)
  | EmptyString => Some (0, s)
  end.

(** The digits after a point, if there is one, carried on from the
    integer part [ip]: the mantissa, the number of digits after the point,
    and what follows. *)
Definition read_fraction (s : string) (ip : Z) : Z * Z * string :=
  match s with
  | String "." rest => read_digits rest ip 0
  | _ => (ip, 0, s)
  end.

(** A value at or above this bound rounds to infinity in binary64, one
    at or below [tiny] rounds to zero. *)
Definition huge : Q := inject_Z (2 ^ 1024 - 2 ^ 970).
Definition tiny : Q := (1 # (2 ^ 1075))%Q.

(** [strconv.ParseFloat(s, 64)] on decimal literals: an optional sign,
    digits with at most one point among them, an optional exponent, and
    nothing else before or after. The value is the number written, not
    yet rounded to 53 bits, except that what rounds to zero is zero and
    what rounds to infinity is the range error. The other forms
    [ParseFloat] reads (infinities, NaN, a hexadecimal mantissa, digits
    separated by underscores) are left out: the model answers the syntax
    error for them. *)
Definition ParseFloat (s : string) : result Q :=
  let '(neg, s1) := read_sign s in
  let '(ip, ni, s2) := read_digits s1 0 0 in
  let '(mant, nf, s3) := read_fraction s2 ip in
  if ni + nf =? 0 then Err (syntaxError s)
  else
    match read_exponent s3 with
    | Some (e, EmptyString) =>
        let a := (inject_Z mant * 10 ^ (e - nf))%Q in
        if Qle_bool huge a then Err (rangeError s)
        else if Qle_bool a tiny then Ok 0%Q
        else Ok (if neg then (- a)%Q else a)
    | _ => Err (syntaxError s)
    end.

Definition unsupported (limitStr : string) : error :=
  errorString ("unsupported bandwidth format: " ++ limitStr).

Definition parseBandwidthLimit (limitStr : string) : result Q :=
  let limitStr := TrimSpace (ToUpper limitStr) in
  let parsed : result (Q * string) :=
    if HasSuffix limitStr "BPS" then
      if HasSuffix limitStr "GBPS"
      then Ok (inject_Z (1024 * 1024 * 1024 / 8), TrimSuffix limitStr "GBPS")
      else if HasSuffix limitStr "MBPS"
      then Ok (inject_Z (1024 * 1024 / 8), TrimSuffix limitStr "MBPS")
      else if HasSuffix limitStr "KBPS"
      then Ok (inject_Z (1024 / 8), TrimSuffix limitStr "KBPS")
      else Err (unsupported limitStr)
    else if HasSuffix limitStr "B/S" then
      if HasSuffix limitStr "GB/S"
      then Ok (inject_Z (1024 * 1024 * 1024), TrimSuffix limitStr "GB/S")
      else if HasSuffix limitStr "MB/S"
      then Ok (inject_Z (1024 * 1024), TrimSuffix limitStr "MB/S")
      else if HasSuffix limitStr "KB/S"
      then Ok (inject_Z 1024, TrimSuffix limitStr "KB/S")
      else Err (unsupported limitStr)
    else
      Err (errorString
             "bandwidth limit must end with /s or bps (e.g., '100MB/s', '10Mbps')")
  in
  match parsed with
  | Err e => Err e
  | Ok (multiplier, numStr) =>
      match ParseFloat numStr with
      | Err err => Err (Errorf_w "invalid number in bandwidth limit: " (Some err))
      | Ok num =>
          if Qle_bool num 0
          then Err (errorString "bandwidth limit must be positive")
          else Ok (num * multiplier)%Q
      end
  end.

(** A string that ends with the space character. *)
Definition ends_with_space (s : string) : Prop := exists z, s = z ++ " ".

(** The white space of the regular expressions, [\s]. *)
Definition is_re_space (c : ascii) : bool :=
  let n := nat_of_ascii c in
  (n =? 9)%nat || (n =? 10)%nat || (n =? 12)%nat || (n =? 13)%nat || (n =? 32)%nat.

Fixpoint skip_re_spaces (s : string) : string :=
  match s with
  | String c rest => if is_re_space c then skip_re_spaces rest else s
  | EmptyString => s
  end.

Definition units : list string :=
  [ "KB/S"; "MB/S"; "GB/S"; "KBPS"; "MBPS"; "GBPS" ].

(** [formatRegex.MatchString] for the pattern
    [^(\d+(?:\.\d+)?)\s*(KB/S|MB/S|GB/S|KBPS|MBPS|GBPS)$]. Every
    repetition of the pattern is followed by something its own
    characters cannot start, so reading each greedily decides it. *)
Definition formatRegex_MatchString (s : string) : bool :=
  let '(_, n, s1) := read_digits s 0 0 in
  if n =? 0 then false
  else
    let s2 :=
      match s1 with
      | String "." rest =>
          let '(_, nf, rest') := read_digits rest 0 0 in
          if nf =? 0 then s1 else rest'
      | _ => s1
      end in
    existsb (String.eqb (skip_re_spaces s2)) units.

Definition validFormats : list string :=
  [ "KB/s"; "MB/s"; "GB/s"; "Kbps"; "Mbps"; "Gbps" ].

Definition ValidateBandwidthFormat (limitStr : string) : option error :=
  if (limitStr =? EmptyString)%string then None
  else
    let normalized := TrimSpace (ToUpper limitStr) in
    if negb (formatRegex_MatchString normalized) then
      Some (errorString ("invalid bandwidth format '" ++ limitStr
                         ++ "'. Valid formats: " ++ String.concat ", " validFormats))
    else
      match parseBandwidthLimit limitStr with
      | Err err => Some (Errorf_w "failed to parse bandwidth limit: " (Some err))
      | Ok bytesPerSecond =>
          let minBandwidth := inject_Z 1024 in
          let maxBandwidth := inject_Z (100 * 1024 * 1024 * 1024) in
          if Retry.Qltb bytesPerSecond minBandwidth
          then Some (errorString "bandwidth limit too low: minimum 1KB/s")
          else if Retry.Qltb maxBandwidth bytesPerSecond
          then Some (errorString "bandwidth limit too high: maximum 100GB/s")
          else None
      end.

Definition is_AZ (c : ascii) : bool := is_upper c.

Definition is_digit (c : ascii) : bool :=
  match digit_of c with Some _ => true | None => false end.

(** [spaceRegex.ReplaceAllString(s, "${1}${2}")] for the pattern
    [(\d)\s+([A-Z])]: a run of white space between a digit and a capital
    letter is dropped. [afterDigit] says that the last character put out
    was a digit; [ws] holds, in reverse, the white space read since. *)
Fixpoint squeeze (afterDigit : bool) (ws : string) (s : string) : string :=
  match s with
  | EmptyString => rev_string ws
  | String c rest =>
      if afterDigit && is_re_space c then squeeze true (String c ws) rest
      else if afterDigit && negb (ws =? EmptyString)%string && is_AZ c
      then String c (squeeze false EmptyString rest)
      else rev_string ws ++ String c (squeeze (is_digit c) EmptyString rest)
  end.

Definition ValidateAndNormalize (limitStr : string) : result string :=
  match ValidateBandwidthFormat limitStr with
  | Some err => Err err
  | None =>
      if (limitStr =? EmptyString)%string then Ok EmptyString
      else Ok (squeeze false EmptyString (TrimSpace (ToUpper limitStr)))
  end.

(** [context.Context], as far as the limiter asks: [ctx.Err()]. *)
Record Context := mkContext { ctx_Err : option error }.

Section Limiter.

(** [*rate.Limiter] of [golang.org/x/time/rate]: the token bucket with
    its state. [NewLimiter] makes one from a rate and a burst; [WaitN]
    takes [n] tokens, or fails, and leaves the bucket in a new state. *)
Variable Limiter : Type.
Variable NewLimiter : Q -> Z -> Limiter.
Variable WaitN : Limiter -> Context -> Z -> option error * Limiter.

(** [limiter] is a pointer, [None] when nil. *)
Record BandwidthLimiter := mkBandwidthLimiter {
  limiter : option Limiter;
  enabled : bool
}.

(** The outcome of a call on a value that may be a nil pointer. *)
Inductive outcome (A : Type) :=
| Done (a : A)
| Panic.
Arguments Done {A} a.
Arguments Panic {A}.

Definition NewBandwidthLimiter (limitStr : string) : result BandwidthLimiter :=
  if (limitStr =? EmptyString)%string
  then Ok {| limiter := None; enabled := false |}
  else
    match parseBandwidthLimit limitStr with
    | Err err => Err (Errorf_w "invalid bandwidth limit format: " (Some err))
    | Ok bytesPerSecond =>
        let burstSize := Retry.Qtrunc (bytesPerSecond / 10)%Q in
        let burstSize := if burstSize <? 64 * 1024 then 64 * 1024 else burstSize in
        Ok {| limiter := Some (NewLimiter bytesPerSecond burstSize);
              enabled := true |}
    end.

(** [Wait]: the error and the limiter afterwards. *)
Definition Wait (bl : BandwidthLimiter) (ctx : Context) (n : Z)
  : outcome (option error * BandwidthLimiter) :=
  if negb (enabled bl) then Done (None, bl)
  else
    match limiter bl with
    | None => Panic
    | Some l =>
        let '(err, l') := WaitN l ctx n in
        Done (err, {| limiter := Some l'; enabled := enabled bl |})
    end.

Definition IsEnabled (bl : BandwidthLimiter) : bool := enabled bl.

(** The wrapped stream: [Read] (or [Write]) on a stream in state [S] with
    a buffer of [len] bytes answers the count, the error, and the stream
    afterwards (for a read, with the bytes it put into the buffer). *)
Variable S : Type.
Variable reader_Read : S -> Z -> (Z * option error) * S.
Variable writer_Write : S -> list N -> (Z * option error) * S.

Record LimitedReader := mkLimitedReader {
  lr_reader : S;
  lr_limiter : BandwidthLimiter;
  lr_ctx : Context
}.

Definition NewLimitedReader (reader : S) (bl : BandwidthLimiter)
    (ctx : Context) : LimitedReader :=
  {| lr_reader := reader; lr_limiter := bl; lr_ctx := ctx |}.

Definition LimitedReader_Read (lr : LimitedReader) (len : Z)
  : outcome ((Z * option error) * LimitedReader) :=
  let '((n, err), reader') := reader_Read (lr_reader lr) len in
  if (0 <? n) && enabled (lr_limiter lr) then
    match Wait (lr_limiter lr) (lr_ctx lr) n with
    | Panic => Panic
    | Done (Some waitErr, bl') =>
        Done ((n, Some waitErr), mkLimitedReader reader' bl' (lr_ctx lr))
    | Done (None, bl') =>
        Done ((n, err), mkLimitedReader reader' bl' (lr_ctx lr))
    end
  else Done ((n, err), mkLimitedReader reader' (lr_limiter lr) (lr_ctx lr)).

Record LimitedWriter := mkLimitedWriter {
  lw_writer : S;
  lw_limiter : BandwidthLimiter;
  lw_ctx : Context
}.

Definition NewLimitedWriter (writer : S) (bl : BandwidthLimiter)
    (ctx : Context) : LimitedWriter :=
  {| lw_writer := writer; lw_limiter := bl; lw_ctx := ctx |}.

Definition LimitedWriter_Write (lw : LimitedWriter) (p : list N)
  : outcome ((Z * option error) * LimitedWriter) :=
  let write (bl : BandwidthLimiter) :=
    let '(res, writer') := writer_Write (lw_writer lw) p in
    Done (res, mkLimitedWriter writer' bl (lw_ctx lw)) in
  if enabled (lw_limiter lw) then
    match Wait (lw_limiter lw) (lw_ctx lw) (Z.of_nat (List.length p)) with
    | Panic => Panic
    | Done (Some err, bl') =>
        Done ((0, Some err), mkLimitedWriter (lw_writer lw) bl' (lw_ctx lw))
    | Done (None, bl') => write bl'
    end
  else write (lw_limiter lw).

End Limiter.

Arguments Done {A} a.
Arguments Panic {A}.

End Bandwidth.

(* ================================================================== *)
(** ** Retry controller: the wrappers and the count of calls *)
(* ================================================================== *)

Module RetryCalls.
Import GoError Retry.

Section Counting.

Variable St : Type.
Variable operation : St -> option error * St.

(** The operation with a counter of its calls beside its own state, as
    the tests count them with [callCount++]. *)
Definition counting (s : St * nat) : option error * (St * nat) :=
  let '(err, st') := operation (fst s) in (err, (st', S (snd s))).

End Counting.

Record RetryableClientCopyOperation := mkRetryable {
  config : RetryConfig
}.

Definition NewRetryableClientCopyOperation : RetryableClientCopyOperation :=
  {| config := DefaultClientCopyRetryConfig |}.

(** [WithCustomConfig] overwrites the configuration of the receiver and
    returns it. *)
Definition WithCustomConfig (r : RetryableClientCopyOperation)
    (c : RetryConfig) : RetryableClientCopyOperation :=
  {| config := c |}.

Section Execute.

Variable St : Type.
Variable ctx : Z -> Z -> option error.
Variable rnd : Z -> Q.

Definition ExecuteDownload (r : RetryableClientCopyOperation)
    (downloadFunc : St -> option error * St) (st : St)
  : option error * St * list DebugMessage :=
  WithRetry St downloadFunc ctx rnd (config r) "download" st.

Definition ExecuteUpload (r : RetryableClientCopyOperation)
    (uploadFunc : St -> option error * St) (st : St)
  : option error * St * list DebugMessage :=
  WithRetry St uploadFunc ctx rnd (config r) "upload" st.

End Execute.

End RetryCalls.

(* ================================================================== *)
(** ** Configuration validator ([config_validator.go]) *)
(* ================================================================== *)

Module Config.
Import GoStrings GoError Bandwidth.

(** The configuration with the bandwidth limit, and its validator. *)
Record ClientCopyConfig := mkClientCopyConfig {
  SourceURL : string;
  DestinationURL : string;
  BandwidthLimit : string;
  SourceProfile : string;
  DestinationProfile : string;
  SourceEndpoint : string;
  DestinationEndpoint : string;
  SkipDiskCheck : bool
}.

(** One of the two blocks on the consistency of a profile and its
    endpoint: an endpoint without a profile is a warning. *)
Definition endpointCheck (profile endpoint message : string) : list error :=
  if negb (profile =? EmptyString)%string && (endpoint =? EmptyString)%string
  then []
  else if (profile =? EmptyString)%string && negb (endpoint =? EmptyString)%string
  then [errorString message]
  else [].

(** The checks on the two URLs and on the endpoints, which both
    validators make in this order. *)
Definition urlAndEndpointErrors (sourceURL destinationURL sourceProfile
    sourceEndpoint destinationProfile destinationEndpoint : string)
  : list error :=
  app (if (sourceURL =? EmptyString)%string
       then [errorString "source URL cannot be empty"] else [])
   (app (if (destinationURL =? EmptyString)%string
         then [errorString "destination URL cannot be empty"] else [])
    (app (if (sourceURL =? destinationURL)%string
          then [errorString "source and destination URLs cannot be the same"]
          else [])
     (app (endpointCheck sourceProfile sourceEndpoint
             "warning: source endpoint specified without profile")
          (endpointCheck destinationProfile destinationEndpoint
             "warning: destination endpoint specified without profile")))).

Definition ValidateClientCopyConfig (config : ClientCopyConfig) : list error :=
  app (match ValidateBandwidthFormat (BandwidthLimit config) with
       | Some err => [Errorf_w "bandwidth validation: " (Some err)]
       | None => []
       end)
      (urlAndEndpointErrors (SourceURL config) (DestinationURL config)
         (SourceProfile config) (SourceEndpoint config)
         (DestinationProfile config) (DestinationEndpoint config)).

(** The validator of the configuration without a bandwidth limit. *)
Definition ValidateClientCopyConfig_plain (sourceURL destinationURL
    sourceProfile destinationProfile sourceEndpoint destinationEndpoint : string)
    (skipDiskCheck : bool) : list error :=
  urlAndEndpointErrors sourceURL destinationURL sourceProfile sourceEndpoint
    destinationProfile destinationEndpoint.

(** A validation result that does not abort: its message starts with
    [warning:]. *)
Definition isWarning (e : error) : bool := String.prefix "warning:" (Error e).

Definition GetSupportedFormats : list string := app [] validFormats.

Definition GetExampleFormats : list string :=
  [ "100KB/s"; "50MB/s"; "1GB/s"; "10Mbps"; "100Mbps"; "1Gbps" ].

End Config.

(* ================================================================== *)
(** ** Metrics collector ([client_copy_metrics.go]) *)
(* ================================================================== *)

Module Metrics.
Import GoStrings GoError Bandwidth.
Import DiskSpace (result, Ok, Err).

(** A [time.Time] is the number of nanoseconds since the zero time; a
    [time.Duration] a number of nanoseconds in the range of [int64]. *)
Definition IsZero (t : Z) : bool := t =? 0.

Definition minDuration : Z := - 2 ^ 63.
Definition maxDuration : Z := 2 ^ 63 - 1.

(** [t.Sub(u)]: the difference, or the largest (smallest) duration when
    the difference does not fit. *)
Definition Sub (t u : Z) : Z :=
  let d := t - u in
  if d <? minDuration then minDuration
  else if maxDuration <? d then maxDuration
  else d.

(** [d.Seconds()], as a rational. *)
Definition Seconds (d : Z) : Q := (inject_Z d / inject_Z 1000000000)%Q.

Record ThroughputSample := mkSample {
  Timestamp : Z;
  BytesTotal : Z;
  Phase : string
}.

Record ClientCopyMetrics := mkMetrics {
  StartTime : Z;
  DownloadStartTime : Z;
  DownloadEndTime : Z;
  UploadStartTime : Z;
  UploadEndTime : Z;
  TotalBytes : Z;
  SourceURL : string;
  DestinationURL : string;
  BandwidthLimit : string;
  DiskCheckSkipped : bool;
  TempDir : string;
  RetryAttempts : Z;
  DiskSpaceUsed : Z;
  DiskSpaceAvailable : Z;
  NetworkLatency : Z;
  ThroughputSamples : list ThroughputSample;
  ErrorCount : Z;
  LastError : string
}.

(** [NewClientCopyMetrics]; [now] is what [time.Now()] answers. *)
Definition NewClientCopyMetrics (now : Z) (sourceURL destinationURL
    bandwidthLimit : string) (diskCheckSkipped : bool) (tempDir : string)
  : ClientCopyMetrics :=
  {| StartTime := now;
     DownloadStartTime := 0; DownloadEndTime := 0;
     UploadStartTime := 0; UploadEndTime := 0;
     TotalBytes := 0;
     SourceURL := sourceURL; DestinationURL := destinationURL;
     BandwidthLimit := bandwidthLimit;
     DiskCheckSkipped := diskCheckSkipped; TempDir := tempDir;
     RetryAttempts := 0;
     DiskSpaceUsed := 0; DiskSpaceAvailable := 0; NetworkLatency := 0;
     ThroughputSamples := [];
     ErrorCount := 0;
     LastError := EmptyString |}.

Definition AddThroughputSample (now : Z) (m : ClientCopyMetrics)
    (bytesTotal : Z) (phase : string) : ClientCopyMetrics :=
  {| StartTime := StartTime m;
     DownloadStartTime := DownloadStartTime m;
     DownloadEndTime := DownloadEndTime m;
     UploadStartTime := UploadStartTime m; UploadEndTime := UploadEndTime m;
     TotalBytes := TotalBytes m;
     SourceURL := SourceURL m; DestinationURL := DestinationURL m;
     BandwidthLimit := BandwidthLimit m;
     DiskCheckSkipped := DiskCheckSkipped m; TempDir := TempDir m;
     RetryAttempts := RetryAttempts m;
     DiskSpaceUsed := DiskSpaceUsed m;
     DiskSpaceAvailable := DiskSpaceAvailable m;
     NetworkLatency := NetworkLatency m;
     ThroughputSamples :=
       app (ThroughputSamples m) [mkSample now bytesTotal phase];
     ErrorCount := ErrorCount m;
     LastError := LastError m |}.


Definition GetDownloadDuration (m : ClientCopyMetrics) : Z :=
  if IsZero (DownloadStartTime m) || IsZero (DownloadEndTime m) then 0
  else Sub (DownloadEndTime m) (DownloadStartTime m).

Definition GetUploadDuration (m : ClientCopyMetrics) : Z :=
  if IsZero (UploadStartTime m) || IsZero (UploadEndTime m) then 0
  else Sub (UploadEndTime m) (UploadStartTime m).


(** The three speeds divide the bytes by the seconds of a duration,
    unless one of the two is zero. The quotient of the two [float64] is
    taken over the rationals. *)
Definition speed (totalBytes duration : Z) : Q :=
  if (duration =? 0) || (totalBytes =? 0) then 0%Q
  else (inject_Z totalBytes / Seconds duration)%Q.


Definition GetDownloadSpeed (m : ClientCopyMetrics) : Q :=
  speed (TotalBytes m) (GetDownloadDuration m).

Definition GetUploadSpeed (m : ClientCopyMetrics) : Q :=
  speed (TotalBytes m) (GetUploadDuration m).

Definition getBandwidthStatusForMetrics (limitStr : string) : string :=
  if (limitStr =? EmptyString)%string then "unlimited" else limitStr.

(** [getLastErrorSummary]; the length of a string is its number of
    bytes. *)
Definition getLastErrorSummary (m : ClientCopyMetrics) : string :=
  if (LastError m =? EmptyString)%string then "none"
  else if (100 <? String.length (LastError m))%nat
  then String.substring 0 97 (LastError m) ++ "..."
  else LastError m.

(** The loop of [GetPeakThroughput] from the sample after [prev] on. *)
Fixpoint peakLoop (prev : ThroughputSample) (rest : list ThroughputSample)
    (maxThroughput : Q) : Q :=
  match rest with
  | [] => maxThroughput
  | curr :: rest' =>
      let timeDiff := Seconds (Sub (Timestamp curr) (Timestamp prev)) in
      let bytesDiff := BytesTotal curr - BytesTotal prev in
      let maxThroughput :=
        if Retry.Qltb 0 timeDiff && (0 <? bytesDiff) then
          let throughput := (inject_Z bytesDiff / timeDiff)%Q in
          if Retry.Qltb maxThroughput throughput then throughput
          else maxThroughput
        else maxThroughput in
      peakLoop curr rest' maxThroughput
  end.

Definition GetPeakThroughput (m : ClientCopyMetrics) : Q :=
  match ThroughputSamples m with
  | first :: (_ :: _) as rest => peakLoop first rest 0%Q
  | _ => 0%Q
  end.


(** The loop of [formatBytes]: [for n := bytes / unit; n >= unit;
    n /= unit]. [fuel] bounds the iterations; [None] when it runs out. *)
Fixpoint scaleLoop (fuel : nat) (n div exp : Z) : option (Z * Z) :=
  if 1024 <=? n then
    match fuel with
    | O => None
    | S fuel' => scaleLoop fuel' (Z.quot n 1024) (div * 1024) (exp + 1)
    end
  else Some (div, exp).

(** The value of a finite binary64 as a rational. *)
Definition float_to_Q (f : spec_float) : Q :=
  match f with
  | S754_finite s m e =>
      let a := (inject_Z (Zpos m) * 2 ^ e)%Q in if s then (- a)%Q else a
  | _ => 0%Q
  end.

(** [%.1f] of a rational that is not negative: the nearest number of
    tenths, ties to the even one. *)
Definition format_tenths (q : Q) : string :=
  let scaled := (q * 10)%Q in
  let lower := Qfloor scaled in
  let rest := (scaled - inject_Z lower)%Q in
  let tenths :=
    if Retry.Qltb rest (1 # 2) then lower
    else if Retry.Qltb (1 # 2) rest then lower + 1
    else if Z.even lower then lower else lower + 1 in
  verb_d (tenths / 10) ++ "." ++ verb_d (tenths mod 10).

(** [formatBytes]; [None] stands for the panic of an index outside
    ["KMGTPE"] (or for the loop running out of fuel). The quotient
    [float64(bytes) / float64(div)] is exact, [div] being a power of
    two. *)
Definition formatBytes (bytes : Z) : option string :=
  if bytes <? 1024 then Some (verb_d bytes ++ " B")
  else
    match scaleLoop 64 (Z.quot bytes 1024) 1024 0 with
    | None => None
    | Some (div, exp) =>
        match String.get (Z.to_nat exp) "KMGTPE" with
        | None => None
        | Some c =>
            Some (format_tenths (float_to_Q (Float64.of_int bytes) / inject_Z div)
                  ++ " " ++ String c "B")
        end
    end.

Definition formatBytesOrNA (bytes : Z) : option string :=
  if bytes =? 0 then Some "N/A" else formatBytes bytes.

End Metrics.

(* ================================================================== *)
(** ** Bytes *)
(* ================================================================== *)

Module Bytes.

(** The elements of a [[]byte]. *)
Definition is_byte (b : N) : Prop := (b < 256)%N.

End Bytes.

(** ** Where the walk up a path stops by itself *)

Module Roots.

Definition atRoot (p : string) : Prop :=
  p = "/" \/ p = "." \/ p = EmptyString.

End Roots.

(** ** Two samples that follow each other *)

Module Samples.
Import Metrics.


(** The bytes per second between the two. *)
Definition throughput (prev curr : ThroughputSample) : Q :=
  (inject_Z (BytesTotal curr - BytesTotal prev)
   / Seconds (Sub (Timestamp curr) (Timestamp prev)))%Q.

End Samples.

(** ** A test on every byte of a string *)

Module Chars.

Fixpoint every (p : ascii -> bool) (s : string) : bool :=
  match s with
  | EmptyString => true
  | String c rest => p c && every p rest
  end.

(** The bytes of the number in an accepted limit: digits and the point. *)
Definition in_number (c : ascii) : bool :=
  Bandwidth.is_digit c || (c =? ".")%char.

End Chars.

(** ** Suggested corrections ([config_validator.go]) *)

Module Suggest.
Import GoStrings Bandwidth Chars.

(** The map of the common mistakes, as the list of its entries; no key
    comes twice. *)
Definition corrections : list (string * string) :=
  [ ("mb", "MB/s"); ("mbps", "Mbps"); ("gb", "GB/s"); ("gbps", "Gbps");
    ("kb", "KB/s"); ("kbps", "Kbps"); ("mbs", "MB/s"); ("gbs", "GB/s");
    ("kbs", "KB/s") ].

Fixpoint lookup (key : string) (m : list (string * string)) : option string :=
  match m with
  | [] => None
  | (k, v) :: m' => if (key =? k)%string then Some v else lookup key m'
  end.

(** What is left after [(?:\.\d+)?]: the point counts only with a digit
    after it. *)
Definition optional_fraction (s1 : string) : string :=
  match s1 with
  | String "." rest =>
      let '(_, nf, rest') := read_digits rest 0 0 in
      if nf =? 0 then s1 else rest'
  | _ => s1
  end.

Definition has_newline (s : string) : bool :=
  negb (every (fun c => negb (c =? ascii_of_nat 10)%char) s).

(** [numRegex.FindStringSubmatch]: the pattern is a number as in the
    pattern of the validator, white space, and a second group of any
    bytes up to the end of the text. The two groups are answered when
    there is a match. The digits, the fraction and the white space are
    read greedily; the point of the second group matches every byte but
    the line feed, so what is left has to be free of line feeds. A
    shorter choice for a repetition leaves more for the second group to
    match, and cannot succeed where the greedy one fails. *)
Definition numRegex_FindStringSubmatch (s : string) : option (string * string) :=
  let '(_, n, s1) := read_digits s 0 0 in
  if n =? 0 then None
  else
    let s2 := optional_fraction s1 in
    let rest := skip_re_spaces s2 in
    if has_newline rest then None
    else Some (String.substring 0 (String.length s - String.length s2) s, rest).

Definition SuggestCorrection (invalidFormat : string) : string :=
  let lower := ToLower (TrimSpace invalidFormat) in
  match numRegex_FindStringSubmatch lower with
  | Some (numPart, rest) =>
      let unitPart := TrimSpace rest in
      match lookup unitPart corrections with
      | Some correction => numPart ++ correction
      | None => "50MB/s"
      end
  | None => "50MB/s"
  end.

End Suggest.

(* ================================================================== *)
(** ** Concrete inputs used in the examples *)
(* ================================================================== *)

Module Inputs.
Import GoError SyncStrategy.

Definition remote (key : string) (size mtime : Z) (etag : string) : Object :=
  mkObject (mkURL true key) size mtime etag.

Definition local (path : string) (size mtime : Z) (etag : string) : Object :=
  mkObject (mkURL false path) size mtime etag.

(** A file system on which no file can be opened. *)
Definition unreadable : string -> FileRead := fun _ => OpenFails.

(** Five destination-only entries, as in
    [TestSyncMaxDeleteWithContextCancellation]. *)
Definition fiveURLs : list URL :=
  map (fun name => mkURL true ("s3://dest-bucket/" ++ name))
    [ "file0.txt"; "file1.txt"; "file2.txt"; "file3.txt"; "file4.txt" ].

Definition joinURL (root src : URL) : URL :=
  mkURL (IsRemote root) (url_String root ++ url_String src).

(** A token bucket that refuses every reservation once the context is
    done, and a stream that always answers 24 bytes. *)
Definition strictWaitN (l : unit) (ctx : Bandwidth.Context) (n : Z)
  : option error * unit :=
  (Bandwidth.ctx_Err ctx, l).

Definition canceled : Bandwidth.Context :=
  Bandwidth.mkContext (Some (errorString "context canceled")).

Definition stream24 (s : nat) (len : Z) : (Z * option error) * nat :=
  ((24, None), S s).

Definition sink (s : nat) (p : list N) : (Z * option error) * nat :=
  ((Z.of_nat (List.length p), None), S s).

Definition accessDenied : error := errorString "access denied".

(** A configuration that allows the initial attempt only. *)
Definition noRetries : Retry.RetryConfig :=
  Retry.mkRetryConfig 0 Retry.Second (30 * Retry.Second) 2 true.

(** A context that is never done, and a source of random numbers that
    always draws one half. *)
Definition background : Z -> Z -> option error := fun _ _ => None.
Definition half : Z -> Q := fun _ => (1 # 2)%Q.

(** A Linux machine with a writable [/tmp] on a volume that has 4096
    bytes free. *)
Definition fullDisk : DiskSpace.OS :=
  {| DiskSpace.GOOS := "linux";
     DiskSpace.isDir := fun p => (p =? "/tmp")%string;
     DiskSpace.Dir := fun _ => "/";
     DiskSpace.TempDir := "/tmp";
     DiskSpace.CreateTemp := fun _ => None;
     DiskSpace.GetDiskFreeSpaceEx :=
       fun _ => DiskSpace.Err (errorString "not supported");
     DiskSpace.UTF16PtrFromString := fun _ => None;
     DiskSpace.statfsFree := fun _ => 4096 |}.

(** A Windows machine whose volume has 4096 bytes free for the caller. *)
Definition windowsDisk : DiskSpace.OS :=
  {| DiskSpace.GOOS := "windows";
     DiskSpace.isDir := fun p => (p =? "C:\Temp")%string;
     DiskSpace.Dir := fun _ => "C:\";
     DiskSpace.TempDir := "C:\Temp";
     DiskSpace.CreateTemp := fun _ => None;
     DiskSpace.GetDiskFreeSpaceEx := fun _ => DiskSpace.Ok 4096;
     DiskSpace.UTF16PtrFromString := fun _ => None;
     DiskSpace.statfsFree := fun _ => 4096 |}.

(** The configuration of [TestRetryConfigCalculateDelay]. *)
Definition testConfig : Retry.RetryConfig :=
  Retry.mkRetryConfig 3 (100 * Retry.Millisecond) (1 * Retry.Second) 2 false.


End Inputs.
Import Inputs.

(* ================================================================== *)
(** ** More concrete inputs *)
(* ================================================================== *)

Module MoreInputs.
Import GoError.

(** One retry, and none at all: [MaxRetries] of 1 and of -1. *)
Definition oneRetry : Retry.RetryConfig :=
  Retry.mkRetryConfig 1 Retry.Second (30 * Retry.Second) 2 true.

Definition noAttempt : Retry.RetryConfig :=
  Retry.mkRetryConfig (-1) Retry.Second (30 * Retry.Second) 2 true.

(** A context whose deadline passes during every wait. *)
Definition deadline : Z -> Z -> option error :=
  fun _ _ => Some (errorString "context deadline exceeded").

(** A file system with two files of the same content and one of
    another; the sixteen bytes of a digest are cut to two here. *)
Definition threeFiles (path : string) : SyncStrategy.FileRead :=
  if (path =? "/a")%string then SyncStrategy.Digest [212%N; 29%N]
  else if (path =? "/b")%string then SyncStrategy.Digest [212%N; 29%N]
  else if (path =? "/c")%string then SyncStrategy.Digest [9%N; 143%N]
  else SyncStrategy.OpenFails.

(** A configuration with every field in order, and profiles missing
    for both endpoints. *)
Definition warnedConfig : Config.ClientCopyConfig :=
  Config.mkClientCopyConfig "s3://src/key" "s3://dst/key" "100MB/s"
    EmptyString EmptyString "https://a.example" "https://b.example" false.

(** Three samples, one second apart: 1000 bytes, then 4000 more. *)
Definition sampled : Metrics.ClientCopyMetrics :=
  Metrics.AddThroughputSample 3000000000
    (Metrics.AddThroughputSample 2000000000
       (Metrics.AddThroughputSample 1000000000
          (Metrics.NewClientCopyMetrics 1000000000 "s3://src/key"
             "s3://dst/key" "100MB/s" false "/tmp")
          0 "download")
       1000 "download")
    5000 "upload".

End MoreInputs.
Import MoreInputs.

(* ================================================================== *)
(** * Properties *)
(* ================================================================== *)

(** ** Strings *)

Section StringFacts.
Import GoStrings.

Lemma prefix_app (p s : string) :
  String.prefix p s = true <-> exists rest, s = p ++ rest.
Proof.
  revert s; induction p as [|c p IH]; intros s.
  - split; [intros _; now exists s | destruct s; reflexivity].
  - destruct s as [|d s]; simpl.
    + split; [discriminate | intros [rest H]; discriminate].
    + destruct (ascii_dec c d) as [->|Hne].
      * rewrite IH. split; intros [rest H]; exists rest.
        -- now rewrite H.
        -- now injection H.
      * split; [discriminate|].
        intros [rest H]. injection H as H1 _. congruence.
Qed.

Lemma Contains_eq (s substr : string) :
  Contains s substr =
    String.prefix substr s
    || match s with
       | EmptyString => false
       | String _ rest => Contains rest substr
       end.
Proof. destruct s; reflexivity. Qed.

(** [Contains] finds exactly the strings that have [substr] somewhere
    inside. *)
Lemma Contains_app (s substr : string) :
  Contains s substr = true <-> exists a b, s = a ++ substr ++ b.
Proof.
  induction s as [|c s IH]; rewrite Contains_eq.
  - rewrite orb_false_r, prefix_app. split.
    + intros [rest H]. now exists EmptyString, rest.
    + intros [a [b H]]. destruct a; simpl in H.
      * now exists b.
      * discriminate.
  - rewrite orb_true_iff, prefix_app, IH. split.
    + intros [[rest H] | [a [b H]]].
      * now exists EmptyString, rest.
      * exists (String c a), b. simpl. now rewrite H.
    + intros [a [b H]]. destruct a as [|d a]; simpl in H.
      * left. now exists b.
      * right. injection H as _ H. now exists a, b.
Qed.

End StringFacts.

(** ** Sync strategies *)

Section StrategyFacts.
Import GoStrings SyncStrategy.

Lemma isMultipartETag_dash (etag : string) :
  isMultipartETag etag = true <-> exists a b, etag = a ++ "-" ++ b.
Proof. apply Contains_app. Qed.

(** The factory: size-only before hash before size and modification
    time. *)
Lemma NewStrategy_precedence (sizeOnly hashOnly : bool) :
  NewStrategy sizeOnly hashOnly =
    if sizeOnly then SizeOnlyStrategy
    else if hashOnly then HashStrategy else SizeAndModificationStrategy.
Proof. reflexivity. Qed.

Lemma SizeOnly_copy_iff (src dst : Object) :
  SizeOnly_ShouldSync src dst = None <-> Size src <> Size dst.
Proof.
  unfold SizeOnly_ShouldSync.
  destruct (Z.eqb_spec (Size src) (Size dst)); split; congruence.
Qed.

(** C8. The default strategy: a source modified strictly later than the
    destination is copied; otherwise a source of another size is copied;
    otherwise the pair is skipped with [ErrObjectIsNewerAndSizesMatch]. *)
Theorem SizeAndModification_decision (src dst : Object) :
  (ModTime dst < ModTime src ->
     SizeAndModification_ShouldSync src dst = None) /\
  (ModTime src <= ModTime dst -> Size src <> Size dst ->
     SizeAndModification_ShouldSync src dst = None) /\
  (ModTime src <= ModTime dst -> Size src = Size dst ->
     SizeAndModification_ShouldSync src dst = Some ErrObjectIsNewerAndSizesMatch).
Proof.
  unfold SizeAndModification_ShouldSync, After.
  destruct (Z.ltb_spec (ModTime dst) (ModTime src));
    destruct (Z.eqb_spec (Size src) (Size dst)); simpl;
    repeat split; intros; try reflexivity; try lia; congruence.
Qed.

Lemma SizeAndModification_decision_witness :
  SizeAndModification_ShouldSync
    (remote "s3://b/k" 100 3600 "a") (remote "s3://c/k" 100 0 "a") = None /\
  SizeAndModification_ShouldSync
    (remote "s3://b/k" 100 0 "a") (remote "s3://c/k" 200 0 "a") = None /\
  SizeAndModification_ShouldSync
    (remote "s3://b/k" 100 0 "a") (remote "s3://c/k" 100 3600 "a")
    = Some ErrObjectIsNewerAndSizesMatch.
Proof.
  split; [|split].
  - destruct (SizeAndModification_decision
                (remote "s3://b/k" 100 3600 "a") (remote "s3://c/k" 100 0 "a"))
      as [H _].
    apply H. unfold remote; simpl; lia.
  - destruct (SizeAndModification_decision
                (remote "s3://b/k" 100 0 "a") (remote "s3://c/k" 200 0 "a"))
      as [_ [H _]].
    apply H; unfold remote; simpl; lia.
  - destruct (SizeAndModification_decision
                (remote "s3://b/k" 100 0 "a") (remote "s3://c/k" 100 3600 "a"))
      as [_ [_ H]].
    apply H; unfold remote; simpl; lia.
Defined.

Variable fs : string -> FileRead.

(** C9. A separator in the hash token of either side means copy, whether
    or not the two tokens are equal. *)
Theorem Hash_multipart_copy (src dst : Object) :
  isMultipartETag (getHash fs src) = true
  \/ isMultipartETag (getHash fs dst) = true ->
  Hash_ShouldSync fs src dst = None.
Proof.
  intros H. unfold Hash_ShouldSync.
  destruct (negb (Size src =? Size dst)); [reflexivity|].
  cbv zeta.
  replace (isMultipartETag (getHash fs src) || isMultipartETag (getHash fs dst))
    with true; [reflexivity|].
  symmetry. apply orb_true_iff. exact H.
Qed.

(** A local object without a stored entity tag whose file cannot be
    opened, or cannot be read to the end, has the empty hash token. *)
Lemma getHash_failure (obj : Object) :
  IsRemote (obj_URL obj) = false -> Etag obj = EmptyString ->
  fs (url_String (obj_URL obj)) = OpenFails
  \/ fs (url_String (obj_URL obj)) = CopyFails ->
  getHash fs obj = EmptyString.
Proof.
  intros Hl He Hf. unfold getHash. rewrite Hl, He. simpl.
  destruct Hf as [-> | ->]; reflexivity.
Qed.

(** An empty token on one side and a non-empty one on the other: copy. *)
Lemma Hash_one_empty_copy (src dst : Object) :
  (getHash fs src = EmptyString /\ getHash fs dst <> EmptyString)
  \/ (getHash fs src <> EmptyString /\ getHash fs dst = EmptyString) ->
  Hash_ShouldSync fs src dst = None.
Proof.
  intros H. unfold Hash_ShouldSync.
  destruct (negb (Size src =? Size dst)); [reflexivity|]. cbv zeta.
  destruct (isMultipartETag (getHash fs src) || isMultipartETag (getHash fs dst));
    [reflexivity|].
  destruct (String.eqb_spec (getHash fs src) (getHash fs dst)) as [E|E];
    [|reflexivity].
  destruct H as [[H1 H2] | [H1 H2]]; congruence.
Qed.

(** C3. Where the code leaves the claim: two objects of one size whose
    hash tokens are both empty are skipped with [ErrObjectEtagsMatch],
    not copied. *)
Theorem Hash_both_empty_skip (src dst : Object) :
  Size src = Size dst ->
  getHash fs src = EmptyString -> getHash fs dst = EmptyString ->
  Hash_ShouldSync fs src dst = Some ErrObjectEtagsMatch.
Proof.
  intros Hs H1 H2. unfold Hash_ShouldSync.
  rewrite Hs, Z.eqb_refl, H1, H2. reflexivity.
Qed.

End StrategyFacts.

Lemma Hash_multipart_copy_witness :
  SyncStrategy.Hash_ShouldSync unreadable
    (remote "s3://b/k" 100 0 "abc-5") (remote "s3://c/k" 100 0 "abc-5") = None.
Proof.
  apply (Hash_multipart_copy unreadable
           (remote "s3://b/k" 100 0 "abc-5") (remote "s3://c/k" 100 0 "abc-5")).
  left. reflexivity.
Defined.

Lemma Hash_both_empty_skip_witness :
  SyncStrategy.Hash_ShouldSync unreadable
    (local "/non/existent/src" 100 0 EmptyString)
    (local "/non/existent/dst" 100 0 EmptyString)
  = Some SyncStrategy.ErrObjectEtagsMatch.
Proof.
  apply (Hash_both_empty_skip unreadable
           (local "/non/existent/src" 100 0 EmptyString)
           (local "/non/existent/dst" 100 0 EmptyString));
    reflexivity.
Defined.

(** The scenarios of the design document on the strategies. *)
Example scenario_S1 :
  SyncStrategy.SizeOnly_ShouldSync (remote "s3://b/k" 100 0 "a")
    (remote "s3://c/k" 100 5 "b") = Some SyncStrategy.ErrObjectSizesMatch.
Proof. reflexivity. Qed.

Example scenario_S3 :
  SyncStrategy.Hash_ShouldSync unreadable
    (remote "s3://b/k" 7 0 "d41d8cd98f00b204e9800998ecf8427e")
    (remote "s3://c/k" 7 5 "d41d8cd98f00b204e9800998ecf8427e")
  = Some SyncStrategy.ErrObjectEtagsMatch.
Proof. reflexivity. Qed.

(** ** The max-delete cap *)

Section PlannerFacts.
Import GoError SyncStrategy Planner.

(** The decision of the test and the planner's agree: a refusal is
    surfaced exactly when the test's expression is false. *)
Lemma shouldDelete_planDeletes (maxDelete : Z) (onlyDest : list URL) :
  shouldDelete maxDelete (Z.of_nat (List.length onlyDest)) = true
  <-> snd (planDeletes true maxDelete onlyDest) = [].
Proof.
  unfold shouldDelete, planDeletes. simpl.
  set (count := Z.of_nat (List.length onlyDest)).
  assert (0 <= count) by (unfold count; lia).
  destruct (Z.eqb_spec count 0), (Z.ltb_spec maxDelete 0),
    (Z.leb_spec count maxDelete), (Z.leb_spec 0 maxDelete),
    (Z.ltb_spec maxDelete count); simpl; split; intros; try reflexivity;
    try discriminate; lia.
Qed.

(** Every row of the table of [TestMaxDeleteLogic] holds, with the
    message the planner surfaces on a refusal. *)
Lemma maxDeleteCases_hold :
  Forall (fun row : Z * Z * bool * string =>
            let '(maxDelete, filesToDelete, expected, message) := row in
            shouldDelete maxDelete filesToDelete = expected
            /\ (expected = false -> refusal filesToDelete maxDelete = message))
    maxDeleteCases.
Proof.
  unfold maxDeleteCases.
  repeat (constructor; [split; [reflexivity | intros; try discriminate; reflexivity]|]).
  constructor.
Qed.

Variable join : URL -> URL -> URL.
Variable fs : string -> FileRead.
Variable strategy : Strategy.

Lemma filter_isDelete_copies (dsturl : URL) (onlySource : list URL) :
  filter isDelete (map (fun src => Copy src (join dsturl src)) onlySource) = [].
Proof. induction onlySource; simpl; auto. Qed.

Lemma filter_isDelete_synced (common : list (Object * Object)) :
  filter isDelete
    (flat_map
       (fun pair : Object * Object =>
          match ShouldSync fs strategy (fst pair) (snd pair) with
          | None => [Copy (obj_URL (fst pair)) (obj_URL (snd pair))]
          | Some _ => []
          end) common) = [].
Proof.
  induction common as [|pair common IH]; simpl; auto.
  rewrite filter_app, IH, app_nil_r.
  destruct (ShouldSync fs strategy (fst pair) (snd pair)); reflexivity.
Qed.

Lemma filter_isDelete_deletes (onlyDest : list URL) :
  filter isDelete (map Delete onlyDest) = map Delete onlyDest.
Proof. induction onlyDest; simpl; congruence. Qed.

(** C2. With [delete] set: more destination-only entries than a
    non-negative limit give no [Delete] item and the one refusal; a count
    within the limit, or a negative limit, gives one [Delete] per entry
    and no error. *)
Theorem max_delete_enforced (maxDelete : Z) (dsturl : URL)
    (onlySource onlyDest : list URL) (common : list (Object * Object)) :
  let count := Z.of_nat (List.length onlyDest) in
  let result :=
    planRun join fs strategy true maxDelete dsturl onlySource onlyDest common in
  (0 <= maxDelete < count ->
     filter isDelete (fst result) = []
     /\ snd result = [refusal count maxDelete])
  /\ (count <= maxDelete \/ maxDelete < 0 ->
       filter isDelete (fst result) = map Delete onlyDest
       /\ snd result = []).
Proof.
  intros count result. unfold result, planRun, planDeletes. simpl negb. cbv iota.
  fold count.
  destruct (Z.leb_spec 0 maxDelete), (Z.ltb_spec maxDelete count); simpl;
    rewrite !filter_app, filter_isDelete_copies, filter_isDelete_synced;
    try rewrite filter_isDelete_deletes; simpl;
    (split; [intros ? | intros [?|?]]); try lia; auto.
Qed.

End PlannerFacts.

Lemma max_delete_enforced_witness :
  (filter Planner.isDelete
     (fst (Planner.planRun joinURL unreadable SyncStrategy.SizeOnlyStrategy
             true 3 (SyncStrategy.mkURL true "s3://test-bucket/") [] fiveURLs []))
   = []
   /\ snd (Planner.planRun joinURL unreadable SyncStrategy.SizeOnlyStrategy
             true 3 (SyncStrategy.mkURL true "s3://test-bucket/") [] fiveURLs [])
      = ["refusing to delete 5 files; more than max-delete limit of 3"])
  /\ (filter Planner.isDelete
        (fst (Planner.planRun joinURL unreadable SyncStrategy.SizeOnlyStrategy
                true (-1) (SyncStrategy.mkURL true "s3://test-bucket/") [] fiveURLs []))
      = map Planner.Delete fiveURLs
      /\ snd (Planner.planRun joinURL unreadable SyncStrategy.SizeOnlyStrategy
                true (-1) (SyncStrategy.mkURL true "s3://test-bucket/") [] fiveURLs [])
         = []).
Proof.
  split.
  - destruct (max_delete_enforced joinURL unreadable SyncStrategy.SizeOnlyStrategy
                3 (SyncStrategy.mkURL true "s3://test-bucket/") [] fiveURLs [])
      as [H _].
    apply H. simpl. lia.
  - destruct (max_delete_enforced joinURL unreadable SyncStrategy.SizeOnlyStrategy
                (-1) (SyncStrategy.mkURL true "s3://test-bucket/") [] fiveURLs [])
      as [_ H].
    apply H. right. lia.
Defined.

(** ** Bandwidth limiter: the disabled limiter *)

Section DisabledLimiter.
Import GoError Bandwidth.
Import DiskSpace (result, Ok, Err).

Variable Limiter : Type.
Variable NewLimiter : Q -> Z -> Limiter.
Variable WaitN : Limiter -> Context -> Z -> option error * Limiter.
Variable S : Type.
Variable reader_Read : S -> Z -> (Z * option error) * S.
Variable writer_Write : S -> list N -> (Z * option error) * S.

Lemma NewBandwidthLimiter_empty :
  NewBandwidthLimiter Limiter NewLimiter EmptyString
  = Ok (mkBandwidthLimiter Limiter None false).
Proof. reflexivity. Qed.

(** C10. The limiter made from the empty string is disabled, without an
    error. On a disabled limiter [Wait] answers [nil] whatever the byte
    count and the context, and leaves the limiter as it is; the read and
    write wrappers answer what the wrapped stream answers, whatever the
    context. *)
Theorem disabled_limiter_is_transparent (bl : BandwidthLimiter Limiter) :
  enabled Limiter bl = false ->
  NewBandwidthLimiter Limiter NewLimiter EmptyString
    = Ok (mkBandwidthLimiter Limiter None false)
  /\ (forall ctx n, Wait Limiter WaitN bl ctx n = Done (None, bl))
  /\ (forall reader ctx len,
        LimitedReader_Read Limiter WaitN S reader_Read
          (NewLimitedReader Limiter S reader bl ctx) len
        = Done (fst (reader_Read reader len),
                NewLimitedReader Limiter S (snd (reader_Read reader len)) bl ctx))
  /\ (forall writer ctx p,
        LimitedWriter_Write Limiter WaitN S writer_Write
          (NewLimitedWriter Limiter S writer bl ctx) p
        = Done (fst (writer_Write writer p),
                NewLimitedWriter Limiter S (snd (writer_Write writer p)) bl ctx)).
Proof.
  intros Hd. repeat split.
  - intros ctx n. unfold Wait. now rewrite Hd.
  - intros reader ctx len. unfold LimitedReader_Read, NewLimitedReader. simpl.
    destruct (reader_Read reader len) as [[n err] reader']. simpl.
    rewrite Hd, andb_false_r. reflexivity.
  - intros writer ctx p. unfold LimitedWriter_Write, NewLimitedWriter. simpl.
    rewrite Hd. destruct (writer_Write writer p) as [res writer']. reflexivity.
Qed.

End DisabledLimiter.

Lemma disabled_limiter_is_transparent_witness :
  Bandwidth.Wait unit strictWaitN
    (Bandwidth.mkBandwidthLimiter unit None false) canceled 1000
  = Bandwidth.Done (None, Bandwidth.mkBandwidthLimiter unit None false)
  /\ Bandwidth.LimitedReader_Read unit strictWaitN nat stream24
       (Bandwidth.NewLimitedReader unit nat 0%nat
          (Bandwidth.mkBandwidthLimiter unit None false) canceled) 24
     = Bandwidth.Done
         ((24, None),
          Bandwidth.NewLimitedReader unit nat 1%nat
            (Bandwidth.mkBandwidthLimiter unit None false) canceled).
Proof.
  destruct (disabled_limiter_is_transparent unit (fun _ _ => tt) strictWaitN
              nat stream24 sink (Bandwidth.mkBandwidthLimiter unit None false)
              eq_refl)
    as (_ & Hwait & Hread & _).
  split.
  - apply Hwait.
  - apply (Hread 0%nat canceled 24).
Defined.

(** An enabled limiter does consult the context: the same read through
    a limiter with a rate fails once the context is done. *)
Example enabled_limiter_consults_context :
  Bandwidth.LimitedReader_Read unit strictWaitN nat stream24
    (Bandwidth.NewLimitedReader unit nat 0%nat
       (Bandwidth.mkBandwidthLimiter unit (Some tt) true) canceled) 24
  = Bandwidth.Done
      ((24, Some (GoError.errorString "context canceled")),
       Bandwidth.NewLimitedReader unit nat 1%nat
         (Bandwidth.mkBandwidthLimiter unit (Some tt) true) canceled).
Proof. reflexivity. Qed.

(** ** Retry controller: the loop *)

Section RetryLoopFacts.
Import GoStrings GoError Retry.

Variable St : Type.
Variable operation : St -> option error * St.
Variable ctx : Z -> Z -> option error.
Variable rnd : Z -> Q.
Variable config : RetryConfig.
Variable operationName : string.

Local Abbreviation loop := (loop St operation ctx rnd config operationName).
Local Abbreviation state_before := (state_before St operation).
Local Abbreviation call_result := (call_result St operation).

(** [k] calls that fail with retryable errors, each followed by a wait
    the timer ends, take the loop from attempt [a] to attempt [a + k]. *)
Lemma loop_advance (k : nat) :
  forall (fuel : nat) (a : Z) (lastErr : option error) (st : St)
         (log : list DebugMessage),
    (forall i, (i < k)%nat ->
       exists ei, call_result i st = Some ei
                  /\ IsRetryableError (Some ei) = true
                  /\ forall d, ctx (a + Z.of_nat i) d = None) ->
    a + Z.of_nat k <= MaxRetries config ->
    exists lastErr' log',
      loop (k + fuel) a lastErr st log
      = loop fuel (a + Z.of_nat k) lastErr' (state_before k st) log'.
Proof.
  induction k as [|k IH]; intros fuel a lastErr st log Hcalls Hle.
  - exists lastErr, log. simpl. now rewrite Z.add_0_r.
  - destruct (Hcalls 0%nat ltac:(lia)) as (e0 & Hres & Hretry & Hctx).
    unfold Retry.call_result in Hres. simpl in Hres.
    change (S k + fuel)%nat with (S (k + fuel)).
    cbn [Retry.loop].
    destruct (operation st) as [err st1] eqn:Hop. simpl in Hres. subst err.
    replace (a =? MaxRetries config) with false
      by (symmetry; apply Z.eqb_neq; lia).
    rewrite Hretry. cbn [negb].
    rewrite Z.add_0_r in Hctx. rewrite Hctx.
    edestruct (IH fuel (a + 1) (Some e0) st1) as (lastErr' & log' & Heq).
    + intros i Hi. destruct (Hcalls (S i) ltac:(lia)) as (ei & H1 & H2 & H3).
      exists ei. repeat split; auto.
      * unfold Retry.call_result in *. simpl in H1. now rewrite Hop in H1.
      * intros d. replace (a + 1 + Z.of_nat i) with (a + Z.of_nat (S i)) by lia.
        apply H3.
    + lia.
    + exists lastErr', log'. rewrite Heq.
      replace (a + 1 + Z.of_nat k) with (a + Z.of_nat (S k)) by lia.
      simpl. now rewrite Hop.
Qed.

(** C1, as the code has it. A failure that is not retryable, at attempt
    [k] (reached through [k] retryable failures and timed-out waits), is
    returned as it is when [k] is not the last attempt; on the last
    attempt, [k = MaxRetries], it comes back wrapped, as every failure of
    the last attempt does. *)
Theorem nonretryable_error_returned (st : St) (k : nat) (e : error) :
  (forall i, (i < k)%nat ->
     exists ei, call_result i st = Some ei
                /\ IsRetryableError (Some ei) = true
                /\ forall d, ctx (Z.of_nat i) d = None) ->
  call_result k st = Some e ->
  IsRetryableError (Some e) = false ->
  Z.of_nat k <= MaxRetries config ->
  fst (fst (WithRetry St operation ctx rnd config operationName st))
  = if Z.of_nat k <? MaxRetries config then Some e
    else Some (Errorf_w ("operation failed after "
                           ++ verb_d (MaxRetries config + 1) ++ " retries: ")
                        (Some e)).
Proof.
  intros Hcalls Hres Hnon Hle.
  unfold WithRetry.
  replace (Z.to_nat (MaxRetries config + 1))
    with (k + S (Z.to_nat (MaxRetries config) - k))%nat by lia.
  destruct (loop_advance k (S (Z.to_nat (MaxRetries config) - k)) 0 None st [])
    as (lastErr' & log' & Heq).
  - intros i Hi. destruct (Hcalls i Hi) as (ei & H1 & H2 & H3).
    exists ei. repeat split; auto.
  - lia.
  - rewrite Heq. cbn [Retry.loop].
    unfold Retry.call_result in Hres.
    destruct (operation (state_before k st)) as [err st'] eqn:Hop.
    simpl in Hres. subst err. simpl (0 + Z.of_nat k).
    destruct (Z.ltb_spec (Z.of_nat k) (MaxRetries config)) as [Hlt|Hge].
    + replace (Z.of_nat k =? MaxRetries config) with false
        by (symmetry; apply Z.eqb_neq; lia).
      rewrite Hnon. reflexivity.
    + replace (Z.of_nat k =? MaxRetries config) with true
        by (symmetry; apply Z.eqb_eq; lia).
      reflexivity.
Qed.

End RetryLoopFacts.

Lemma nonretryable_error_returned_witness :
  fst (fst (Retry.WithRetry nat
              (Retry.scripted [Some (GoError.errorString "connection timeout");
                               Some accessDenied])
              background half Retry.DefaultClientCopyRetryConfig "upload" 0%nat))
  = Some accessDenied.
Proof.
  apply (nonretryable_error_returned nat
           (Retry.scripted [Some (GoError.errorString "connection timeout");
                            Some accessDenied])
           background half Retry.DefaultClientCopyRetryConfig "upload" 0%nat
           1%nat accessDenied).
  - intros i Hi. assert (i = 0%nat) as -> by lia.
    exists (GoError.errorString "connection timeout").
    repeat split.
  - reflexivity.
  - reflexivity.
  - simpl. lia.
Defined.

(** C1, as the claim states it, fails on the last attempt: with no retry
    allowed, a first call that ends in "access denied", which is not
    retryable, comes back inside the "operation failed after 1 retries"
    error. *)
Lemma nonretryable_error_wrapped_on_last_attempt :
  Retry.IsRetryableError (Some accessDenied) = false
  /\ fst (fst (Retry.WithRetry nat (Retry.scripted [Some accessDenied])
                 background half noRetries "upload" 0%nat))
     = Some (GoError.wrapError "operation failed after 1 retries: access denied"
               (Some accessDenied))
  /\ fst (fst (Retry.WithRetry nat (Retry.scripted [Some accessDenied])
                 background half noRetries "upload" 0%nat))
     <> Some accessDenied.
Proof.
  split; [reflexivity|]. split; [reflexivity|]. discriminate.
Qed.

(** Scenario S5 of the design document, and the failure that uses up
    every attempt. *)
Example scenario_S5 :
  Retry.WithRetry nat
    (Retry.scripted [Some (GoError.errorString "connection timeout");
                     Some (GoError.errorString "i/o timeout"); None])
    background half Retry.DefaultClientCopyRetryConfig "download" 0%nat
  = (None, 3%nat,
     [Retry.Retrying "download" 1 4 1000000000
        (GoError.errorString "connection timeout");
      Retry.Retrying "download" 2 4 2000000000
        (GoError.errorString "i/o timeout");
      Retry.SucceededAfter "download" 2]).
Proof. reflexivity. Qed.

(** ** Bandwidth limit parsing *)

Section ParsingFacts.
Import GoStrings GoError Bandwidth.
Import DiskSpace (result, Ok, Err, isErr).

(** The cases of [TestParseBandwidthLimit] that parse. *)
Example parse_table :
  map parseBandwidthLimit
    [ "100MB/s"; "1.5GB/s"; "50KB/s"; "10Mbps"; "1Gbps"; "100Kbps"; "100mb/s" ]
  = map Ok
      [ inject_Z (100 * 1024 * 1024);
        ((15 # 10) * inject_Z (1024 * 1024 * 1024))%Q;
        inject_Z (50 * 1024);
        inject_Z (10 * 1024 * 1024 / 8);
        inject_Z (1024 * 1024 * 1024 / 8);
        inject_Z (100 * 1024 / 8);
        inject_Z (100 * 1024 * 1024) ].
Proof. vm_compute. reflexivity. Qed.

(** ... and those that do not. *)
Example parse_table_errors :
  forallb (fun s => isErr (parseBandwidthLimit s))
    [ "100"; "100XB/s"; "abc MB/s"; "-100MB/s"; "0MB/s" ] = true.
Proof. vm_compute. reflexivity. Qed.

(** The input on which the parser and the claim part: the pattern of
    the validator admits white space between the number and the unit,
    and the form without it parses; but the parser, and the validator
    with it, reject the string. *)
Example whitespace_before_unit_rejected :
  parseBandwidthLimit "100MB/s" = Ok (inject_Z (100 * 1024 * 1024))
  /\ formatRegex_MatchString (TrimSpace (ToUpper "100 MB/s")) = true
  /\ parseBandwidthLimit "100 MB/s"
     = Err (Errorf_w "invalid number in bandwidth limit: "
              (Some (syntaxError "100 ")))
  /\ ValidateBandwidthFormat "100 MB/s"
     = Some (Errorf_w "failed to parse bandwidth limit: "
               (Some (Errorf_w "invalid number in bandwidth limit: "
                        (Some (syntaxError "100 ")))))
  /\ isErr (ValidateAndNormalize "100 MB/s") = true.
Proof. vm_compute. repeat split. Qed.

End ParsingFacts.

Section SpacedUnit.
Import GoStrings GoError Bandwidth.
Import DiskSpace (result, Ok, Err, isErr).

Lemma app_assoc_string (a b c : string) : (a ++ b) ++ c = a ++ b ++ c.
Proof. induction a as [|x a IH]; simpl; [reflexivity | now rewrite IH]. Qed.

Lemma app_empty_r (a : string) : a ++ EmptyString = a.
Proof. induction a as [|x a IH]; simpl; [reflexivity | now rewrite IH]. Qed.

Lemma map_chars_app (f : ascii -> ascii) (a b : string) :
  map_chars f (a ++ b) = map_chars f a ++ map_chars f b.
Proof. induction a as [|x a IH]; simpl; [reflexivity | now rewrite IH]. Qed.

Lemma rev_onto_app (a acc : string) : rev_onto a acc = rev_string a ++ acc.
Proof.
  unfold rev_string. revert acc.
  induction a as [|x a IH]; intros acc; simpl; [reflexivity|].
  rewrite (IH (String x acc)), (IH (String x EmptyString)).
  now rewrite app_assoc_string.
Qed.

Lemma rev_string_app (a b : string) :
  rev_string (a ++ b) = rev_string b ++ rev_string a.
Proof.
  induction a as [|x a IH]; simpl.
  - now rewrite app_empty_r.
  - unfold rev_string in *. simpl.
    rewrite (rev_onto_app (a ++ b)), (rev_onto_app a).
    unfold rev_string. rewrite IH. now rewrite app_assoc_string.
Qed.

Lemma rev_string_involutive (a : string) : rev_string (rev_string a) = a.
Proof.
  induction a as [|x a IH]; [reflexivity|].
  change (rev_string (String x a)) with (rev_onto a (String x EmptyString)).
  rewrite rev_onto_app, rev_string_app, IH. reflexivity.
Qed.

Lemma length_app (a b : string) :
  String.length (a ++ b) = (String.length a + String.length b)%nat.
Proof. induction a as [|x a IH]; simpl; [reflexivity | now rewrite IH]. Qed.

Lemma substring_app (a b : string) :
  String.substring 0 (String.length a) (a ++ b) = a.
Proof.
  induction a as [|x a IH]; simpl.
  - destruct b; reflexivity.
  - now rewrite IH.
Qed.

Lemma ends_with_space_tail (c : ascii) (s : string) :
  ends_with_space (String c s) -> c <> " "%char -> ends_with_space s.
Proof.
  intros [z H] Hc. destruct z as [|x z]; simpl in H.
  - injection H as H _. congruence.
  - injection H as _ H. now exists z.
Qed.

Lemma ends_with_space_nonempty (s : string) :
  ends_with_space s -> s <> EmptyString.
Proof. intros [z H]. destruct z; subst; discriminate. Qed.

Lemma digit_not_space (c : ascii) (d : Z) :
  digit_of c = Some d -> c <> " "%char.
Proof. intros H ->. discriminate. Qed.

Lemma read_digits_ends (s : string) :
  forall acc count, ends_with_space s ->
    ends_with_space (snd (read_digits s acc count)).
Proof.
  induction s as [|c s IH]; intros acc count H; simpl.
  - exact H.
  - destruct (digit_of c) as [d|] eqn:E; [|exact H].
    apply IH. apply (ends_with_space_tail c s H (digit_not_space c d E)).
Qed.

Lemma read_sign_ends (s : string) :
  ends_with_space s -> ends_with_space (snd (read_sign s)).
Proof.
  intros H. unfold read_sign.
  destruct s as [|c s]; [exact H|].
  destruct (ascii_dec c "+") as [->|H1]; [simpl|].
  - apply (ends_with_space_tail "+" s H). discriminate.
  - destruct (ascii_dec c "-") as [->|H2]; [simpl|].
    + apply (ends_with_space_tail "-" s H). discriminate.
    + replace (snd match c with
                   | "+"%char => (false, s)
                   | "-"%char => (true, s)
                   | _ => (false, String c s)
                   end) with (String c s); [exact H|].
      destruct c as [[] [] [] [] [] [] [] []]; try reflexivity; congruence.
Qed.


Lemma read_fraction_ends (s : string) (ip : Z) :
  ends_with_space s -> ends_with_space (snd (read_fraction s ip)).
Proof.
  intros H. unfold read_fraction.
  destruct s as [|c s]; [exact H|].
  destruct (ascii_dec c ".") as [->|H1].
  - apply read_digits_ends. apply (ends_with_space_tail "." s H). discriminate.
  - replace (snd match c with
                 | "."%char => read_digits s ip 0
                 | _ => (ip, 0, String c s)
                 end) with (String c s); [exact H|].
    destruct c as [[] [] [] [] [] [] [] []]; try reflexivity; congruence.
Qed.

Lemma read_exponent_ends (s : string) :
  ends_with_space s ->
  match read_exponent s with
  | Some (_, rest) => rest <> EmptyString
  | None => True
  end.
Proof.
  intros H. unfold read_exponent.
  destruct s as [|c s]; [now apply ends_with_space_nonempty in H|].
  destruct ((c =? "e")%char || (c =? "E")%char) eqn:E.
  - assert (Hc : c <> " "%char).
    { intros ->. discriminate. }
    pose proof (ends_with_space_tail c s H Hc) as Hs.
    pose proof (read_sign_ends s Hs) as H1.
    destruct (read_sign s) as [neg rest]. simpl in H1.
    pose proof (read_digits_ends rest 0 0 H1) as H2.
    destruct (read_digits rest 0 0) as [[e n] rest']. simpl in H2.
    destruct (n =? 0); [exact I|].
    now apply ends_with_space_nonempty.
  - discriminate.
Qed.

(** [ParseFloat] refuses every string that ends with a space. *)
Lemma ParseFloat_ends_with_space (s : string) :
  ends_with_space s -> ParseFloat s = Err (syntaxError s).
Proof.
  intros H. unfold ParseFloat.
  pose proof (read_sign_ends s H) as H1.
  destruct (read_sign s) as [neg s1]. simpl in H1.
  pose proof (read_digits_ends s1 0 0 H1) as H2.
  destruct (read_digits s1 0 0) as [[ip ni] s2]. simpl in H2.
  pose proof (read_fraction_ends s2 ip H2) as H3.
  destruct (read_fraction s2 ip) as [[mant nf] s3]. simpl in H3.
  destruct (ni + nf =? 0); [reflexivity|].
  pose proof (read_exponent_ends s3 H3) as H4.
  destruct (read_exponent s3) as [[e rest]|]; [|reflexivity].
  destruct rest; [congruence | reflexivity].
Qed.

Lemma trim_left_app (a b : string) (c : ascii) :
  is_space c = false ->
  trim_left (a ++ String c b) = trim_left a ++ String c b.
Proof.
  intros Hc. induction a as [|x a IH]; simpl.
  - now rewrite Hc.
  - destruct (is_space x); [exact IH | reflexivity].
Qed.

(** What is left of a string and a space after it, once the leading
    white space is gone: nothing, or a string that ends with the space. *)
Lemma trim_left_space (a : string) :
  trim_left (a ++ " ") = EmptyString \/ ends_with_space (trim_left (a ++ " ")).
Proof.
  induction a as [|x a IH]; simpl.
  - now left.
  - destruct (is_space x); [exact IH|].
    right. now exists (String x a).
Qed.

Lemma prefix_app_l (p a b : string) :
  (String.length p <= String.length a)%nat ->
  String.prefix p (a ++ b) = String.prefix p a.
Proof.
  revert a; induction p as [|x p IH]; intros a Hl.
  - destruct a; [destruct b|]; reflexivity.
  - destruct a as [|y a]; simpl in Hl; [lia|]. simpl.
    destruct (ascii_dec x y); [|reflexivity]. apply IH. lia.
Qed.

Lemma prefix_refl (a : string) : String.prefix a a = true.
Proof. apply prefix_app. exists EmptyString. now rewrite app_empty_r. Qed.

Lemma length_rev_onto (a acc : string) :
  String.length (rev_onto a acc) = (String.length a + String.length acc)%nat.
Proof.
  revert acc; induction a as [|x a IH]; intros acc; simpl; [reflexivity|].
  rewrite IH. simpl. lia.
Qed.

Lemma length_rev_string (a : string) :
  String.length (rev_string a) = String.length a.
Proof. unfold rev_string. rewrite length_rev_onto. simpl. lia. Qed.

Lemma HasSuffix_app (z u suffix : string) :
  (String.length suffix <= String.length u)%nat ->
  HasSuffix (z ++ u) suffix = HasSuffix u suffix.
Proof.
  intros Hl. unfold HasSuffix. rewrite rev_string_app.
  apply prefix_app_l. now rewrite !length_rev_string.
Qed.

Lemma TrimSuffix_app (z u : string) : TrimSuffix (z ++ u) u = z.
Proof.
  unfold TrimSuffix. rewrite HasSuffix_app by lia.
  unfold HasSuffix. rewrite prefix_refl, length_app.
  replace (String.length z + String.length u - String.length u)%nat
    with (String.length z) by lia.
  apply substring_app.
Qed.

Lemma trim_right_keep (s : string) (c : ascii) (r : string) :
  rev_string s = String c r -> is_space c = false -> trim_right s = s.
Proof.
  intros H Hc. unfold trim_right. rewrite H. simpl. rewrite Hc, <- H.
  apply rev_string_involutive.
Qed.

(** What [parseBandwidthLimit] hands to [ParseFloat] for a number, a
    space and a unit. *)
Lemma spaced_parse (num : string) (UNIT : string) (multiplier : Q) :
  In (UNIT, multiplier)
    [ ("KB/S", inject_Z 1024); ("MB/S", inject_Z (1024 * 1024));
      ("GB/S", inject_Z (1024 * 1024 * 1024));
      ("KBPS", inject_Z (1024 / 8)); ("MBPS", inject_Z (1024 * 1024 / 8));
      ("GBPS", inject_Z (1024 * 1024 * 1024 / 8)) ] ->
  forall unit, ToUpper unit = UNIT ->
  parseBandwidthLimit (num ++ " " ++ unit)
  = match ParseFloat (trim_left (ToUpper num ++ " ")) with
    | Err err => Err (Errorf_w "invalid number in bandwidth limit: " (Some err))
    | Ok n =>
        if Qle_bool n 0 then Err (errorString "bandwidth limit must be positive")
        else Ok (n * multiplier)%Q
    end.
Proof.
  intros Hin unit Hu. unfold parseBandwidthLimit.
  unfold ToUpper in *. rewrite !map_chars_app, Hu.
  change (map_chars upper_char " ") with " ".
  set (U := map_chars upper_char num).
  assert (Htrim : TrimSpace (U ++ " " ++ UNIT) = trim_left (U ++ " ") ++ UNIT).
  { unfold TrimSpace. rewrite <- app_assoc_string. simpl in Hin.
    destruct Hin as [H|[H|[H|[H|[H|[H|[]]]]]]]; injection H as <- _;
      (rewrite trim_left_app by reflexivity;
       eapply trim_right_keep;
       [rewrite rev_string_app; reflexivity | reflexivity]). }
  rewrite Htrim. set (Z := trim_left (U ++ " ")).
  clearbody Z.
  simpl in Hin.
  destruct Hin as [H|[H|[H|[H|[H|[H|[]]]]]]]; injection H as <- <-;
    repeat match goal with
      | |- context [HasSuffix (?z ++ ?u) ?suffix] =>
          rewrite (HasSuffix_app z u suffix) by (simpl; lia);
          let b := eval vm_compute in (HasSuffix u suffix) in
          change (HasSuffix u suffix) with b
      end;
    cbv iota; rewrite TrimSuffix_app; reflexivity.
Qed.

(** C6. Where the code leaves the claim: no string made of a number (of
    anything, in fact), a space and one of the six units, in whatever
    case, parses. [parseBandwidthLimit] hands the part before the unit to
    [ParseFloat] with the space still attached, and [ParseFloat] refuses
    it. *)
Theorem space_before_unit_never_parses (num unit : string) :
  In (ToUpper unit) units ->
  isErr (parseBandwidthLimit (num ++ " " ++ unit)) = true.
Proof.
  intros Hin.
  assert (Hm : exists multiplier,
            In (ToUpper unit, multiplier)
              [ ("KB/S", inject_Z 1024); ("MB/S", inject_Z (1024 * 1024));
                ("GB/S", inject_Z (1024 * 1024 * 1024));
                ("KBPS", inject_Z (1024 / 8));
                ("MBPS", inject_Z (1024 * 1024 / 8));
                ("GBPS", inject_Z (1024 * 1024 * 1024 / 8)) ]).
  { unfold units in Hin. simpl in Hin. simpl.
    destruct Hin as [H|[H|[H|[H|[H|[H|[]]]]]]]; rewrite <- H; eauto 10. }
  destruct Hm as [multiplier Hm].
  rewrite (spaced_parse num (ToUpper unit) multiplier Hm unit eq_refl).
  destruct (trim_left_space (ToUpper num)) as [-> | He].
  - reflexivity.
  - now rewrite (ParseFloat_ends_with_space _ He).
Qed.

End SpacedUnit.

Lemma space_before_unit_never_parses_witness :
  DiskSpace.isErr (Bandwidth.parseBandwidthLimit ("100" ++ " " ++ "MB/s")) = true.
Proof.
  apply (space_before_unit_never_parses "100" "MB/s").
  right. left. reflexivity.
Defined.

(** ** Disk-space guard: the free bytes *)

Section FreeBytesFacts.
Import GoError DiskSpace.

Lemma findExisting_dir (os : OS) (fuel : nat) (path : string) :
  isDir os path = true -> findExisting os fuel path = Some path.
Proof.
  intros H. destruct fuel; simpl; rewrite H;
    destruct (negb (path =? "/")%string && negb (path =? ".")%string
              && negb (path =? EmptyString)%string); reflexivity.
Qed.

Lemma isUnix_not_windows (os : OS) :
  Platform.isUnix os = true -> isWindows os = false.
Proof.
  unfold Platform.isUnix, isWindows, Platform.unixNames. simpl.
  rewrite !orb_true_iff.
  intros [H|[H|[H|[H|[H|H]]]]]; try discriminate;
    apply String.eqb_eq in H; rewrite H; reflexivity.
Qed.

(** C5. Where the code leaves the claim. On the Unix platforms the guard
    answers one gibibyte for every existing, writable directory, whatever
    the number of bytes free on its volume; the one source file that does
    not switch on the platform answers ten gibibytes everywhere. *)
Theorem unix_free_bytes_constant (os : OS) (fuel : nat) (path : string) :
  Platform.isUnix os = true ->
  isDir os path = true ->
  CreateTemp os (checkPathOf os path) = None ->
  Platform.getAvailableDiskSpace os fuel path = Some (Ok (1024 * 1024 * 1024))
  /\ Simple.getAvailableDiskSpace os fuel path
     = Some (Ok (10 * 1024 * 1024 * 1024)).
Proof.
  intros Hu Hd Hc.
  unfold Platform.getAvailableDiskSpace, Simple.getAvailableDiskSpace.
  rewrite (findExisting_dir os fuel path Hd), (isUnix_not_windows os Hu), Hu.
  unfold Platform.getUnixDiskSpace, Platform.getFallbackDiskSpace.
  rewrite Hc. split; reflexivity.
Qed.

End FreeBytesFacts.

Lemma unix_free_bytes_constant_witness :
  DiskSpace.statfsFree fullDisk "/tmp" = 4096
  /\ DiskSpace.Platform.getAvailableDiskSpace fullDisk 0 "/tmp"
     = Some (DiskSpace.Ok 1073741824)
  /\ DiskSpace.Simple.getAvailableDiskSpace fullDisk 0 "/tmp"
     = Some (DiskSpace.Ok 10737418240).
Proof.
  split; [reflexivity|].
  apply (unix_free_bytes_constant fullDisk 0 "/tmp"); reflexivity.
Defined.

(** ** Retry controller: the backoff delay *)

Section BackoffFacts.
Import Retry.
Local Open Scope Q_scope.


Lemma Qtrunc_inject_Z (z : Z) : Qtrunc (inject_Z z) = z.
Proof. unfold Qtrunc. simpl. apply Z.quot_1_r. Qed.

Lemma Qltb_true (x y : Q) : Qltb x y = true <-> x < y.
Proof.
  unfold Qltb. rewrite negb_true_iff. split.
  - intros H. apply Qnot_le_lt. intros Hle. apply Qle_bool_iff in Hle. congruence.
  - intros H. destruct (Qle_bool y x) eqn:E; auto.
    apply Qle_bool_iff in E. exfalso. apply (Qlt_not_le _ _ H E).
Qed.

Lemma Qltb_false (x y : Q) : Qltb x y = false <-> y <= x.
Proof. unfold Qltb. rewrite negb_false_iff. apply Qle_bool_iff. Qed.





(** A negative product (a negative base delay) is replaced by the base
    delay, which the cap may lower. *)
Lemma negative_delay_snapped (rc : RetryConfig) (r : Q) (i : Z) :
  (0 <= i)%Z -> nominal rc i < 0 ->
  CalculateDelay rc r i = Z.min (BaseDelay rc) (MaxDelay rc).
Proof.
  intros Hi Hn. unfold CalculateDelay.
  replace (i <? 0)%Z with false by (symmetry; apply Z.ltb_ge; lia).
  cbv zeta.
  replace (Qltb 0 (nominal rc i)) with false
    by (symmetry; apply Qltb_false; lra).
  rewrite andb_false_r.
  replace (Qltb (nominal rc i) 0) with true by (symmetry; now apply Qltb_true).
  destruct (Qltb (inject_Z (MaxDelay rc)) (inject_Z (BaseDelay rc))) eqn:E;
    rewrite Qtrunc_inject_Z.
  - apply Qltb_true in E. rewrite <- Zlt_Qlt in E. lia.
  - apply Qltb_false in E. rewrite <- Zle_Qle in E. lia.
Qed.

End BackoffFacts.

(** The table of [TestRetryConfigCalculateDelay], without jitter, and
    the cap of [TestRetryConfigCalculateDelayMaxCap]. *)
Example delay_table :
  map (Retry.CalculateDelay testConfig 0) [0; 1; 2; 3; -1]
  = [100 * Retry.Millisecond; 200 * Retry.Millisecond;
     400 * Retry.Millisecond; 800 * Retry.Millisecond; 0]
  /\ Retry.CalculateDelay
       (Retry.mkRetryConfig 10 (100 * Retry.Millisecond)
          (500 * Retry.Millisecond) 2 false) 0 10
     = 500 * Retry.Millisecond.
Proof. split; reflexivity. Qed.



(** ** Disk-space guard: the required bytes *)

Section Binary64Facts.
Import Float64.

Lemma digits2_bounds (p : positive) :
  2 ^ (Zpos (digits2_pos p) - 1) <= Zpos p < 2 ^ Zpos (digits2_pos p).
Proof.
  induction p as [p IH|p IH|]; cbn [digits2_pos].
  - rewrite Pos2Z.inj_succ, (Pos2Z.inj_xI p).
    replace (Z.succ (Zpos (digits2_pos p)) - 1)
      with (Z.succ (Zpos (digits2_pos p) - 1)) by lia.
    rewrite !Z.pow_succ_r by lia.
    set (a := 2 ^ (Zpos (digits2_pos p) - 1)) in *.
    set (b := 2 ^ Zpos (digits2_pos p)) in *. clearbody a b. lia.
  - rewrite Pos2Z.inj_succ, (Pos2Z.inj_xO p).
    replace (Z.succ (Zpos (digits2_pos p)) - 1)
      with (Z.succ (Zpos (digits2_pos p) - 1)) by lia.
    rewrite !Z.pow_succ_r by lia.
    set (a := 2 ^ (Zpos (digits2_pos p) - 1)) in *.
    set (b := 2 ^ Zpos (digits2_pos p)) in *. clearbody a b. lia.
  - simpl. lia.
Qed.

Lemma digits2_unique (p : positive) (d : Z) :
  2 ^ (d - 1) <= Zpos p < 2 ^ d -> Zpos (digits2_pos p) = d.
Proof.
  intros [Hlo Hhi]. destruct (digits2_bounds p) as [Blo Bhi].
  set (d0 := Zpos (digits2_pos p)) in *.
  destruct (Z.lt_trichotomy d0 d) as [H|[H|H]]; [exfalso|exact H|exfalso].
  - assert (2 ^ d0 <= 2 ^ (d - 1)) by (apply Z.pow_le_mono_r; lia). lia.
  - assert (2 ^ d <= 2 ^ (d0 - 1)) by (apply Z.pow_le_mono_r; lia). lia.
Qed.

Lemma iter_pos_nat {A : Type} (f : A -> A) (p : positive) (x : A) :
  iter_pos f p x = Nat.iter (Pos.to_nat p) f x.
Proof.
  revert x; induction p as [p IH|p IH|]; intros x; cbn [iter_pos].
  - rewrite !IH, Pos2Nat.inj_xI.
    replace (S (2 * Pos.to_nat p)) with (Pos.to_nat p + S (Pos.to_nat p))%nat by lia.
    rewrite Nat.iter_add, Nat.iter_succ_r. reflexivity.
  - rewrite !IH, Pos2Nat.inj_xO.
    replace (2 * Pos.to_nat p)%nat with (Pos.to_nat p + Pos.to_nat p)%nat by lia.
    now rewrite Nat.iter_add.
  - reflexivity.
Qed.

Lemma shr_1_nonneg (m : Z) (r s : bool) :
  0 <= m ->
  shr_1 (Build_shr_record m r s) = Build_shr_record (m / 2) (Z.odd m) (r || s).
Proof.
  intros Hm. rewrite <- Z.div2_div.
  destruct m as [|p|p]; [reflexivity| |lia].
  destruct p; reflexivity.
Qed.

Lemma shr_iter (M : Z) (k : nat) :
  0 <= M ->
  let mrs := Nat.iter k shr_1 (Build_shr_record M false false) in
  shr_m mrs = M / 2 ^ Z.of_nat k
  /\ loc_of_shr_record mrs = loc_of M (Z.of_nat k).
Proof.
  intros HM. induction k as [|k IH]; cbv zeta in *.
  - simpl. unfold loc_of. rewrite Z.div_1_r, Z.mod_1_r. auto.
  - rewrite Nat.iter_succ.
    destruct (Nat.iter k shr_1 (Build_shr_record M false false)) as [m r s].
    simpl in IH. destruct IH as [Hm Hloc].
    assert (Hpow : 0 < 2 ^ Z.of_nat k) by (apply Z.pow_pos_nonneg; lia).
    assert (0 <= m) by (subst m; apply Z.div_pos; lia).
    rewrite shr_1_nonneg by assumption. cbn [shr_m].
    unfold loc_of in *.
    rewrite Nat2Z.inj_succ, Z.pow_succ_r by lia.
    split.
    + subst m. rewrite Z.div_div by lia. f_equal. lia.
    + rewrite (Z.mul_comm 2 (2 ^ Z.of_nat k)), Z.rem_mul_r by lia.
      rewrite <- Hm.
      pose proof (Z.mod_pos_bound M (2 ^ Z.of_nat k) Hpow) as Hrem.
      set (rem := M mod 2 ^ Z.of_nat k) in *.
      rewrite Zmod_odd.
      destruct (Z.odd m); destruct (Z.eqb_spec rem 0) as [E|E].
      * replace (rem + 2 ^ Z.of_nat k * 1 =? 0) with false
          by (symmetry; apply Z.eqb_neq; lia).
        replace (2 * (rem + 2 ^ Z.of_nat k * 1) ?= 2 ^ Z.of_nat k * 2) with Eq
          by (symmetry; apply Z.compare_eq_iff; lia).
        destruct r, s; simpl in Hloc; try discriminate; reflexivity.
      * replace (rem + 2 ^ Z.of_nat k * 1 =? 0) with false
          by (symmetry; apply Z.eqb_neq; lia).
        replace (2 * (rem + 2 ^ Z.of_nat k * 1) ?= 2 ^ Z.of_nat k * 2) with Gt
          by (symmetry; apply Z.compare_gt_iff; lia).
        destruct r, s; simpl in Hloc; try discriminate; reflexivity.
      * replace (rem + 2 ^ Z.of_nat k * 0 =? 0) with true
          by (symmetry; apply Z.eqb_eq; lia).
        destruct r, s; simpl in Hloc; try discriminate; reflexivity.
      * replace (rem + 2 ^ Z.of_nat k * 0 =? 0) with false
          by (symmetry; apply Z.eqb_neq; lia).
        replace (2 * (rem + 2 ^ Z.of_nat k * 0) ?= 2 ^ Z.of_nat k * 2) with Lt
          by (symmetry; apply Z.compare_lt_iff; lia).
        destruct r, s; simpl in Hloc; try discriminate; reflexivity.
Qed.


Lemma shr_nat (mrs : shr_record) (e n : Z) :
  shr mrs e n = (Nat.iter (Z.to_nat n) shr_1 mrs, e + Z.max 0 n).
Proof.
  destruct n as [|p|p]; simpl.
  - now rewrite Z.add_0_r.
  - now rewrite iter_pos_nat.
  - now rewrite Z.add_0_r.
Qed.

Lemma round_nearest_even_bounds (M k : Z) :
  0 <= M -> 0 <= k ->
  let q := round_nearest_even (M / 2 ^ k) (loc_of M k) in
  M / 2 ^ k <= q <= M / 2 ^ k + 1
  /\ - 2 ^ k <= 2 * (2 ^ k * q - M) <= 2 ^ k.
Proof.
  intros HM Hk. cbv zeta.
  assert (Hpow : 0 < 2 ^ k) by (apply Z.pow_pos_nonneg; lia).
  pose proof (Z.div_mod M (2 ^ k) ltac:(lia)) as Hdm.
  pose proof (Z.mod_pos_bound M (2 ^ k) Hpow) as Hrem.
  unfold loc_of.
  set (rem := M mod 2 ^ k) in *. set (q := M / 2 ^ k) in *.
  set (N := 2 ^ k) in *. clearbody N rem q.
  destruct (Z.eqb_spec rem 0) as [E|E]; cbn [round_nearest_even].
  - nia.
  - destruct (Z.compare_spec (2 * rem) N) as [C|C|C].
    + destruct (Z.even q); nia.
    + nia.
    + nia.
Qed.

(** Rounding a positive integer mantissa of at least 53 bits to binary64,
    away from the subnormal and the overflow range: the result is finite
    and carries the mantissa rounded to nearest even at the bit the shift
    leaves last, halved once more if that rounding reached 2^53. *)
Lemma binary_round_aux_normal (m : positive) (e : Z) :
  let d := Zpos (digits2_pos m) in
  let n := d - 53 in
  let q := round_nearest_even (Zpos m / 2 ^ n) (loc_of (Zpos m) n) in
  53 <= d -> -1074 <= e + n -> e + n <= 900 ->
  exists m' e',
    binary_round_aux 53 1024 false (Zpos m) e loc_Exact = S754_finite false m' e'
    /\ ((e' = e + n /\ Zpos m' = q)
        \/ (e' = e + n + 1 /\ 2 * Zpos m' = q /\ q = 2 ^ 53)).
Proof.
  intros d n q Hd Hlo Hhi.
  destruct (digits2_bounds m) as [Blo Bhi]. fold d in Blo, Bhi.
  assert (Hn : 0 <= n) by (unfold n; lia).
  assert (Hpow : 0 < 2 ^ n) by (apply Z.pow_pos_nonneg; lia).
  destruct (round_nearest_even_bounds (Zpos m) n ltac:(lia) Hn) as [Hq _].
  fold q in Hq.
  assert (Hq0 : 2 ^ 52 <= Zpos m / 2 ^ n < 2 ^ 53).
  { replace (d - 1) with (52 + n) in Blo by (unfold n; lia).
    replace d with (53 + n) in Bhi by (unfold n; lia).
    rewrite Z.pow_add_r in Blo, Bhi by lia. split.
    - apply Z.div_le_lower_bound; lia.
    - apply Z.div_lt_upper_bound; lia. }
  unfold binary_round_aux, shr_fexp, fexp, emin. cbn [Zdigits2 shr_record_of_loc].
  fold d.
  replace (Z.max (d + e - 53) (3 - 1024 - 53) - e) with n by (unfold n; lia).
  rewrite shr_nat.
  destruct (shr_iter (Zpos m) (Z.to_nat n) ltac:(lia)) as [Hm Hloc].
  cbv zeta in Hm, Hloc. rewrite Z2Nat.id in Hm, Hloc by lia.
  destruct (Nat.iter (Z.to_nat n) shr_1 (Build_shr_record (Zpos m) false false))
    as [m1 r1 s1] eqn:E1.
  cbn [shr_m] in Hm. subst m1. rewrite Hloc. cbn [shr_m]. fold q.
  replace (e + Z.max 0 n) with (e + n) by lia.
  assert (Hqpos : 0 < q) by lia.
  clearbody q. clear E1 Hloc.
  destruct q as [|qp|qp]; try lia.
  cbn [Zdigits2].
  destruct (Z.eq_dec (Zpos qp) (2 ^ 53)) as [Htop|Htop].
  - assert (Hdq : Zpos (digits2_pos qp) = 54).
    { apply digits2_unique. rewrite Htop. simpl. lia. }
    rewrite Hdq.
    replace (Z.max (54 + (e + n) - 53) (3 - 1024 - 53) - (e + n)) with 1 by lia.
    rewrite shr_nat. change (Z.to_nat 1) with 1%nat. cbn [Nat.iter].
    rewrite shr_1_nonneg by lia. cbn [shr_m]. rewrite Htop.
    change (2 ^ 53 / 2) with (Zpos (2 ^ 52)%positive).
    replace (e + n + Z.max 0 1 <=? 1024 - 53) with true
      by (symmetry; apply Z.leb_le; lia).
    exists (2 ^ 52)%positive, (e + n + 1). split.
    + f_equal; lia.
    + right. repeat split; assumption || reflexivity.
  - assert (Hdq : Zpos (digits2_pos qp) = 53).
    { apply digits2_unique. change (2 ^ (53 - 1)) with (2 ^ 52). lia. }
    rewrite Hdq.
    replace (Z.max (53 + (e + n) - 53) (3 - 1024 - 53) - (e + n)) with 0 by lia.
    rewrite shr_nat. change (Z.to_nat 0) with 0%nat.
    unfold Nat.iter. cbn [nat_rect shr_m].
    replace (e + n + Z.max 0 0 <=? 1024 - 53) with true
      by (symmetry; apply Z.leb_le; lia).
    exists qp, (e + n). split.
    + f_equal; lia.
    + left. split; reflexivity.
Qed.


Lemma shl_align_lower (mx : positive) (ex ex' : Z) :
  ex' < ex ->
  exists mz, shl_align mx ex ex' = (mz, ex')
             /\ Zpos mz = Zpos mx * 2 ^ (ex - ex').
Proof.
  intros H. unfold shl_align.
  destruct (ex' - ex) as [|p|p] eqn:E; try lia.
  exists (Pos.iter xO mx p). split; [reflexivity|].
  rewrite (Pos.iter_swap_gen _ _ Zpos xO (Z.mul 2)) by reflexivity.
  change (Pos.iter (Z.mul 2) (Zpos mx) p) with (Z.shiftl (Zpos mx) (Zpos p)).
  rewrite Z.shiftl_mul_pow2 by lia. f_equal. f_equal. lia.
Qed.

(** [float64(s)] for a positive [s] of fewer than 53 bits: [s] itself,
    with the mantissa shifted to 53 bits. *)
Lemma of_int_exact (sp : positive) :
  let ds := Zpos (digits2_pos sp) in
  ds < 53 ->
  exists mz,
    Float64.of_int (Zpos sp) = S754_finite false mz (ds - 53)
    /\ Zpos mz = Zpos sp * 2 ^ (53 - ds)
    /\ 2 ^ 52 <= Zpos mz < 2 ^ 53.
Proof.
  intros ds Hds.
  unfold Float64.of_int, binary_normalize, binary_round, fexp, emin,
    Float64.prec, Float64.emax.
  fold ds.
  replace (Z.max (ds + 0 - 53) (3 - 1024 - 53)) with (ds - 53)
    by (pose proof (Pos2Z.is_pos (digits2_pos sp)); fold ds in H; lia).
  destruct (shl_align_lower sp 0 (ds - 53) ltac:(lia)) as (mz & -> & Hmz).
  replace (0 - (ds - 53)) with (53 - ds) in Hmz by lia.
  assert (Hb : 2 ^ 52 <= Zpos mz < 2 ^ 53).
  { destruct (digits2_bounds sp) as [Blo Bhi]. fold ds in Blo, Bhi.
    assert (0 < ds) by (unfold ds; lia).
    replace 52 with ((ds - 1) + (53 - ds)) by lia.
    replace 53 with (ds + (53 - ds)) at 2 by lia.
    rewrite !Z.pow_add_r by lia. rewrite Hmz.
    assert (0 < 2 ^ (53 - ds)) by (apply Z.pow_pos_nonneg; lia).
    split; nia. }
  assert (Hd : Zpos (digits2_pos mz) = 53) by (apply digits2_unique; exact Hb).
  destruct (binary_round_aux_normal mz (ds - 53)) as (m' & e' & Heq & Hcase);
    rewrite ?Hd; try lia.
  rewrite Hd in Hcase. change (53 - 53) with 0 in Hcase.
  assert (Hq : round_nearest_even (Zpos mz / 2 ^ 0) (loc_of (Zpos mz) 0)
               = Zpos mz).
  { unfold loc_of. rewrite Z.pow_0_r, Z.mod_1_r, Z.div_1_r. reflexivity. }
  rewrite Hq in Hcase.
  destruct Hcase as [[He Hm] | (He & Hm & Htop)]; [|lia].
  exists mz. rewrite Heq. injection Hm as ->. subst e'.
  rewrite Z.add_0_r. auto.
Qed.


(** The arithmetic behind the guard: a mantissa [q] within one half of
    the product of [s], scaled to 53 bits, and the binary64 nearest to
    6/5, divided back, has the same integer part as [6 * s / 5]. Here
    [kappa] is 1 or 2 according to the length of the product. *)
Lemma required_core (s T q kappa : Z) :
  0 < s -> 4 <= T -> kappa = 1 \/ kappa = 2 ->
  2 ^ 52 <= kappa * (s * T) < 2 ^ 53 ->
  - (kappa * 2 ^ 52)
    <= 2 * (kappa * 2 ^ 52 * q - kappa * (s * T) * 5404319552844595)
    <= kappa * 2 ^ 52 ->
  q / T = 6 * s / 5.
Proof.
  intros Hs HT Hk Hmz Hq.
  pose proof (Z.div_mod (6 * s) 5 ltac:(lia)) as Hdm.
  pose proof (Z.mod_pos_bound (6 * s) 5 ltac:(lia)) as Hrem.
  set (F := 6 * s / 5) in *. set (rem := (6 * s) mod 5) in *.
  clearbody F rem.
  assert (Hu : 5 * (F * T) <= 6 * (s * T) <= 5 * (F * T) + 4 * T) by nia.
  set (u := s * T) in *. set (v := F * T) in *.
  change (2 ^ 52) with 4503599627370496 in *.
  change (2 ^ 53) with 9007199254740992 in *.
  symmetry. apply (Z.div_unique q T F (q - v)); [|unfold v; lia].
  clearbody u v. destruct Hk; subst kappa; lia.
Qed.

Lemma product_digits (mz : positive) :
  2 ^ 52 <= Zpos mz < 2 ^ 53 ->
  Zpos (digits2_pos (mz * 5404319552844595)) = 105
  \/ Zpos (digits2_pos (mz * 5404319552844595)) = 106.
Proof.
  intros Hmz.
  destruct (digits2_bounds (mz * 5404319552844595)) as [Blo Bhi].
  rewrite Pos2Z.inj_mul in Blo, Bhi.
  set (d := Zpos (digits2_pos (mz * 5404319552844595))) in *.
  assert (Hlo : 2 ^ 104 <= Zpos mz * 5404319552844595).
  { change (2 ^ 104) with (2 ^ 52 * 2 ^ 52).
    change (2 ^ 52) with 4503599627370496 in *. nia. }
  assert (Hhi : Zpos mz * 5404319552844595 < 2 ^ 106).
  { change (2 ^ 106) with (2 ^ 53 * 2 ^ 53).
    change (2 ^ 53) with 9007199254740992 in *. nia. }
  clearbody d.
  destruct (Z_lt_le_dec d 105) as [H|H].
  - exfalso. assert (2 ^ d <= 2 ^ 104) by (apply Z.pow_le_mono_r; lia). lia.
  - destruct (Z_lt_le_dec 106 d) as [H'|H']; [|lia].
    exfalso. assert (2 ^ 106 <= 2 ^ (d - 1)) by (apply Z.pow_le_mono_r; lia).
    lia.
Qed.

(** For every size below 2^50 the guard requires the integer part of
    six fifths of the size. *)
Lemma requiredSpace_floor (size : Z) :
  0 <= size < 2 ^ 50 -> DiskSpace.requiredSpace size = 6 * size / 5.
Proof.
  intros [H0 H50]. destruct size as [|sp|sp]; [reflexivity| |lia].
  destruct (digits2_bounds sp) as [Blo Bhi].
  set (ds := Zpos (digits2_pos sp)) in *.
  assert (Hds0 : 0 < ds) by (unfold ds; lia).
  assert (Hds : ds <= 50).
  { destruct (Z_lt_le_dec 50 ds) as [H|H]; [|exact H].
    exfalso. assert (2 ^ 50 <= 2 ^ (ds - 1)) by (apply Z.pow_le_mono_r; lia).
    lia. }
  destruct (of_int_exact sp ltac:(fold ds; lia)) as (mz & Hof & Hmz & Hb).
  fold ds in Hof, Hmz.
  unfold DiskSpace.requiredSpace. rewrite Hof.
  unfold Float64.mul, Float64.c1_2, Float64.prec, Float64.emax.
  cbn [SFmul xorb].
  set (P := (mz * 5404319552844595)%positive).
  assert (HP : Zpos P = Zpos mz * 5404319552844595) by apply Pos2Z.inj_mul.
  destruct (binary_round_aux_normal P (ds - 53 + -52))
    as (m' & e' & Heq & Hcase);
    try (destruct (product_digits mz Hb) as [Hd|Hd]; fold P in Hd; rewrite Hd; lia).
  rewrite Heq. clear Heq.
  set (n := Zpos (digits2_pos P) - 53) in *.
  assert (Hn : n = 52 \/ n = 53)
    by (destruct (product_digits mz Hb) as [Hd|Hd]; fold P in Hd; unfold n; lia).
  destruct (round_nearest_even_bounds (Zpos P) n ltac:(lia) ltac:(lia))
    as [_ Hq].
  set (q := round_nearest_even (Zpos P / 2 ^ n) (loc_of (Zpos P) n)) in *.
  clearbody q.
  set (t := 105 - ds - n).
  assert (Ht : 2 <= t) by (unfold t; lia).
  assert (HT : 4 <= 2 ^ t).
  { change 4 with (2 ^ 2). apply Z.pow_le_mono_r; lia. }
  assert (Hcore : q / 2 ^ t = 6 * Zpos sp / 5).
  { destruct Hn as [Hn|Hn].
    - apply (required_core (Zpos sp) (2 ^ t) q 1); try lia.
      + replace t with (53 - ds) by (unfold t; lia). rewrite <- Hmz. lia.
      + replace t with (53 - ds) by (unfold t; lia). rewrite <- Hmz.
        rewrite HP, Hn in Hq. lia.
    - assert (HA : 2 ^ (53 - ds) = 2 * 2 ^ t).
      { replace (53 - ds) with (Z.succ t) by (unfold t; lia).
        apply Z.pow_succ_r. lia. }
      rewrite HA in Hmz.
      apply (required_core (Zpos sp) (2 ^ t) q 2); try lia.
      rewrite Hn in Hq. change (2 ^ 53) with (2 * 2 ^ 52) in Hq.
      rewrite HP, Hmz in Hq. lia. }
  assert (Hval : Zpos m' / 2 ^ (- e') = q / 2 ^ t /\ e' < 0).
  { destruct Hcase as [[He Hm] | (He & Hm & _)].
    - split; [|lia]. rewrite Hm. f_equal. f_equal. unfold t. lia.
    - split; [|unfold t in Ht; lia]. rewrite <- Hm.
      replace t with (Z.succ (- e')) by (unfold t; lia).
      rewrite Z.pow_succ_r by lia.
      rewrite Z.div_mul_cancel_l; [reflexivity| |lia].
      apply Z.pow_nonzero; lia. }
  destruct Hval as [Hval Hneg].
  unfold Float64.to_int64.
  replace (0 <=? e') with false by (symmetry; apply Z.leb_gt; exact Hneg).
  rewrite Hval, Hcore.
  assert (Hrange : 0 <= 6 * Zpos sp / 5 < 2 ^ 51).
  { split.
    - apply Z.div_pos; lia.
    - apply Z.div_lt_upper_bound; [lia|].
      change (2 ^ 51) with 2251799813685248.
      change (2 ^ 50) with 1125899906842624 in H50. lia. }
  change (2 ^ 51) with 2251799813685248 in Hrange.
  replace (Float64.minInt64 <=? 6 * Zpos sp / 5) with true
    by (symmetry; apply Z.leb_le; unfold Float64.minInt64;
        change (2 ^ 63) with 9223372036854775808; lia).
  replace (6 * Zpos sp / 5 <=? Float64.maxInt64) with true
    by (symmetry; apply Z.leb_le; unfold Float64.maxInt64;
        change (2 ^ 63) with 9223372036854775808; lia).
  reflexivity.
Qed.

End Binary64Facts.

Section MachineFloats.
Import Floats.PrimFloat Floats.FloatOps.

(** The constant is the literal [1.2] of the machine, and the model of
    the product is what the machine's binary64 multiplication gives. *)
Example c1_2_is_the_literal :
  Prim2SF 0x1.3333333333333p+0%float = Float64.c1_2.
Proof. reflexivity. Qed.

Example machine_product_agrees :
  map (fun n =>
         Prim2SF
           (PrimFloat.mul (PrimFloat.of_uint63 (Uint63.of_Z n))
              0x1.3333333333333p+0%float))
    [1; 5; 7; 1000; 12345678901234]
  = map (fun n => Float64.mul (Float64.of_int n) Float64.c1_2)
      [1; 5; 7; 1000; 12345678901234].
Proof. vm_compute. reflexivity. Qed.

End MachineFloats.

Section GuardFacts.
Import GoError DiskSpace.

(** The failures of the three calls come first, in their order. *)
Lemma validateDiskSpace_failures (e : error) (stat available : result Z)
    (size : Z) :
  validateDiskSpace (Some e) stat available
  = Some (Errorf_w "failed to create source client: " (Some e))
  /\ validateDiskSpace None (Err e) available
     = Some (Errorf_w "failed to get source object info: " (Some e))
  /\ validateDiskSpace None (Ok size) (Err e)
     = Some (Errorf_w "failed to check disk space: " (Some e)).
Proof. repeat split. Qed.


End GuardFacts.



(** Beyond 2^52 bytes the product is rounded to a whole number and the
    required count is no longer the floor. *)
Example floor_beyond_range :
  DiskSpace.requiredSpace (2 ^ 52 + 3) = 5404319552844599
  /\ 6 * (2 ^ 52 + 3) / 5 = 5404319552844598.
Proof. split; vm_compute; reflexivity. Qed.

(** The sibling of the Unix path: on Windows the guard does answer the
    free bytes the system reports. *)
Example windows_free_bytes :
  DiskSpace.Platform.getAvailableDiskSpace windowsDisk 0 "C:\Temp"
  = Some (DiskSpace.Ok 4096).
Proof. reflexivity. Qed.

(** ** Retry controller: the classifier *)

Section ClassifierFacts.
Import GoStrings GoError Retry.













Lemma Contains_prefixed (prefix s pattern : string) :
  Contains s pattern = true -> Contains (prefix ++ s) pattern = true.
Proof.
  intros H. apply Contains_app in H as (a & b & ->).
  apply Contains_app. exists (prefix ++ a), b.
  now rewrite app_assoc_string.
Qed.

Lemma existsb_Contains_prefixed (prefix s : string) (patterns : list string) :
  existsb (Contains s) patterns = true ->
  existsb (Contains (prefix ++ s)) patterns = true.
Proof.
  rewrite !existsb_exists. intros (p & Hin & H). exists p.
  split; [exact Hin | now apply Contains_prefixed].
Qed.

(** X3. Wrapping keeps an error retryable: whatever the prefix, the
    error [fmt.Errorf(prefix + "%w", e)] of a retryable [e] is retryable,
    and so is the error [WithRetry] returns when the attempts are used up
    on retryable failures. *)
Theorem wrapped_error_stays_retryable (prefix : string) (e : error) :
  IsRetryableError (Some e) = true ->
  IsRetryableError (Some (Errorf_w prefix (Some e))) = true.
Proof.
  unfold IsRetryableError, Errorf_w, verb_w. cbn [Error].
  unfold ToLower. rewrite map_chars_app. fold (ToLower (Error e)).
  set (s := ToLower (Error e)). set (p := map_chars lower_char prefix).
  destruct (existsb (Contains s) retryablePatterns) eqn:E1.
  - intros _. now rewrite (existsb_Contains_prefixed p s _ E1).
  - destruct (existsb (Contains s) awsRetryablePatterns) eqn:E2;
      [|discriminate].
    intros _. rewrite (existsb_Contains_prefixed p s _ E2).
    now destruct (existsb (Contains (p ++ s)) retryablePatterns).
Qed.

End ClassifierFacts.

Lemma wrapped_error_stays_retryable_witness :
  Retry.IsRetryableError
    (Some (GoError.Errorf_w "operation failed after 4 retries: "
             (Some (GoError.errorString "connection timeout")))) = true.
Proof.
  apply (wrapped_error_stays_retryable "operation failed after 4 retries: "
           (GoError.errorString "connection timeout")).
  reflexivity.
Defined.

(** ** Retry controller: more on the delay *)

Section DelayFacts.
Import Retry.
Local Open Scope Q_scope.






End DelayFacts.



(** ** Retry controller: what the loop does with the operation *)

Section LoopFacts.
Import GoStrings GoError Retry RetryCalls.

Variable St : Type.
Variable operation : St -> option error * St.
Variable ctx : Z -> Z -> option error.
Variable rnd : Z -> Q.
Variable config : RetryConfig.
Variable operationName : string.

Local Abbreviation loop := (loop St operation ctx rnd config operationName).
Local Abbreviation counted_loop :=
  (Retry.loop (St * nat) (counting St operation) ctx rnd config operationName).
Local Abbreviation state_before := (state_before St operation).
Local Abbreviation call_result := (call_result St operation).

(** The loop makes at most one call per unit of fuel, and at least one
    if it has any. *)
Lemma counted_loop_calls (fuel : nat) :
  forall (a : Z) (lastErr : option error) (s : St * nat)
         (log : list DebugMessage),
    let n := snd (snd (fst (counted_loop fuel a lastErr s log))) in
    (snd s <= n <= snd s + fuel)%nat /\ (fuel <> 0%nat -> snd s < n)%nat.
Proof.
  induction fuel as [|fuel IH]; intros a lastErr s log; cbv zeta.
  - simpl. split; [lia | congruence].
  - cbn [Retry.loop].
    destruct (counting St operation s) as [err s'] eqn:E.
    unfold counting in E. destruct (operation (fst s)) as [err0 st'].
    injection E as -> <-.
    destruct err as [e|]; [|simpl; split; lia].
    destruct (a =? MaxRetries config); [simpl; split; lia|].
    destruct (negb (IsRetryableError (Some e))); [simpl; split; lia|].
    destruct (ctx a _); [simpl; split; lia|].
    destruct (IH (a + 1) (Some e) (st', S (snd s))
                (app log [Retrying operationName (a + 1)
                            (MaxRetries config + 1)
                            (CalculateDelay config (rnd a) a) e]))
      as [H1 H2].
    cbn [snd] in H1, H2. split; intros; lia.
Qed.

(** X6. [WithRetry] never calls the operation more than
    [MaxRetries + 1] times, and it does not call it at all exactly when
    [MaxRetries] is negative. *)
Theorem calls_bounded (st : St) :
  let calls :=
    snd (snd (fst (WithRetry (St * nat) (counting St operation) ctx rnd
                     config operationName (st, 0%nat)))) in
  (calls <= Z.to_nat (MaxRetries config + 1))%nat
  /\ (calls = 0%nat <-> MaxRetries config < 0).
Proof.
  cbv zeta. unfold WithRetry.
  pose proof (counted_loop_calls (Z.to_nat (MaxRetries config + 1)) 0 None
                (st, 0%nat) []) as H.
  cbv zeta in H. cbn [snd] in H.
  destruct (counted_loop (Z.to_nat (MaxRetries config + 1)) 0 None (st, 0%nat) [])
    as [[exit s] log].
  cbn [fst snd] in H. destruct H as [H1 H2].
  destruct exit; cbn [fst snd]; (split; [lia|]); split; intros H; try lia;
    destruct (Z.to_nat (MaxRetries config + 1)) eqn:E; try lia;
    assert (Hn : S n <> 0%nat) by discriminate; specialize (H2 Hn); lia.
Qed.

(** X7. When the first [k] calls fail with retryable errors, the timer
    ends each wait and call [k] succeeds, with [k] at most [MaxRetries],
    the result is nil and the operation has been called [k + 1] times and
    no more. *)
Theorem eventual_success (st : St) (k : nat) :
  (forall i, (i < k)%nat ->
     exists ei, call_result i st = Some ei
                /\ IsRetryableError (Some ei) = true
                /\ forall d, ctx (Z.of_nat i) d = None) ->
  call_result k st = None ->
  Z.of_nat k <= MaxRetries config ->
  fst (WithRetry St operation ctx rnd config operationName st)
  = (None, state_before (S k) st).
Proof.
  intros Hcalls Hres Hle. unfold WithRetry.
  replace (Z.to_nat (MaxRetries config + 1))
    with (k + S (Z.to_nat (MaxRetries config) - k))%nat by lia.
  destruct (loop_advance St operation ctx rnd config operationName k
              (S (Z.to_nat (MaxRetries config) - k)) 0 None st [])
    as (lastErr' & log' & Heq); [exact Hcalls | lia |].
  rewrite Heq. cbn [Retry.loop].
  unfold Retry.call_result in Hres.
  assert (Hs : state_before (S k) st = snd (operation (state_before k st))).
  { clear. revert st. induction k as [|k IH]; intros st; [reflexivity|].
    simpl. simpl in IH. now rewrite IH. }
  rewrite Hs.
  destruct (operation (state_before k st)) as [err st']. simpl in Hres.
  subst err. reflexivity.
Qed.

(** X8. When the first [MaxRetries] calls fail with retryable errors,
    the timer ends each wait and the last call fails too, with whatever
    error [e], the result is the error "operation failed after
    [MaxRetries + 1] retries: ..." that wraps [e]. *)
Theorem retries_exhausted (st : St) (e : error) :
  0 <= MaxRetries config ->
  (forall i, (i < Z.to_nat (MaxRetries config))%nat ->
     exists ei, call_result i st = Some ei
                /\ IsRetryableError (Some ei) = true
                /\ forall d, ctx (Z.of_nat i) d = None) ->
  call_result (Z.to_nat (MaxRetries config)) st = Some e ->
  exists err,
    fst (WithRetry St operation ctx rnd config operationName st)
    = (Some err, state_before (S (Z.to_nat (MaxRetries config))) st)
    /\ Error err = "operation failed after " ++ verb_d (MaxRetries config + 1)
                   ++ " retries: " ++ Error e
    /\ Unwrap err = Some e.
Proof.
  intros H0 Hcalls Hres. unfold WithRetry.
  set (k := Z.to_nat (MaxRetries config)) in *.
  replace (Z.to_nat (MaxRetries config + 1)) with (k + 1)%nat by lia.
  destruct (loop_advance St operation ctx rnd config operationName k 1 0 None
              st [])
    as (lastErr' & log' & Heq); [exact Hcalls | lia |].
  rewrite Heq. cbn [Retry.loop].
  unfold Retry.call_result in Hres.
  assert (Hs : state_before (S k) st = snd (operation (state_before k st))).
  { clear. revert st. induction k as [|k IH]; intros st; [reflexivity|].
    simpl. simpl in IH. now rewrite IH. }
  rewrite Hs.
  destruct (operation (state_before k st)) as [err st']. simpl in Hres.
  subst err.
  replace (0 + Z.of_nat k =? MaxRetries config) with true
    by (symmetry; apply Z.eqb_eq; lia).
  eexists. split; [reflexivity|]. split.
  - unfold Errorf_w, verb_w. cbn [Error]. now rewrite !app_assoc_string.
  - reflexivity.
Qed.

(** X9. When a wait is ended by the context, [WithRetry] returns the
    error of the context, not the one of the operation, and does not
    call the operation again. *)
Theorem cancelled_during_wait (st : St) (k : nat) (e ctxErr : error) :
  (forall i, (i < k)%nat ->
     exists ei, call_result i st = Some ei
                /\ IsRetryableError (Some ei) = true
                /\ forall d, ctx (Z.of_nat i) d = None) ->
  call_result k st = Some e ->
  IsRetryableError (Some e) = true ->
  Z.of_nat k < MaxRetries config ->
  ctx (Z.of_nat k) (CalculateDelay config (rnd (Z.of_nat k)) (Z.of_nat k))
  = Some ctxErr ->
  fst (WithRetry St operation ctx rnd config operationName st)
  = (Some ctxErr, state_before (S k) st).
Proof.
  intros Hcalls Hres Hretry Hlt Hctx. unfold WithRetry.
  replace (Z.to_nat (MaxRetries config + 1))
    with (k + S (Z.to_nat (MaxRetries config) - k))%nat by lia.
  destruct (loop_advance St operation ctx rnd config operationName k
              (S (Z.to_nat (MaxRetries config) - k)) 0 None st [])
    as (lastErr' & log' & Heq); [exact Hcalls | lia |].
  rewrite Heq. cbn [Retry.loop].
  unfold Retry.call_result in Hres.
  assert (Hs : state_before (S k) st = snd (operation (state_before k st))).
  { clear. revert st. induction k as [|k IH]; intros st; [reflexivity|].
    simpl. simpl in IH. now rewrite IH. }
  rewrite Hs.
  destruct (operation (state_before k st)) as [err st']. simpl in Hres.
  subst err. change (0 + Z.of_nat k) with (Z.of_nat k).
  replace (Z.of_nat k =? MaxRetries config) with false
    by (symmetry; apply Z.eqb_neq; lia).
  rewrite Hretry. cbn [negb]. rewrite Hctx. reflexivity.
Qed.

(** X10. With a negative [MaxRetries] the operation is never called and
    the result is an error that wraps nil. *)
Theorem negative_MaxRetries (st : St) :
  MaxRetries config < 0 ->
  WithRetry St operation ctx rnd config operationName st
  = (Some (wrapError ("operation failed after "
                        ++ verb_d (MaxRetries config + 1)
                        ++ " retries: %!w(<nil>)") None),
     st,
     [FailedAfter operationName (MaxRetries config + 1) None]).
Proof.
  intros H. unfold WithRetry.
  replace (Z.to_nat (MaxRetries config + 1)) with 0%nat by lia.
  cbn [Retry.loop]. unfold Errorf_w, verb_w. simpl app.
  now rewrite !app_assoc_string.
Qed.

End LoopFacts.

Lemma eventual_success_witness :
  fst (Retry.WithRetry nat
         (Retry.scripted [Some (GoError.errorString "connection timeout");
                          Some (GoError.errorString "i/o timeout"); None])
         background half Retry.DefaultClientCopyRetryConfig "download" 0%nat)
  = (None, 3%nat).
Proof.
  apply (eventual_success nat
           (Retry.scripted [Some (GoError.errorString "connection timeout");
                            Some (GoError.errorString "i/o timeout"); None])
           background half Retry.DefaultClientCopyRetryConfig "download"
           0%nat 2%nat).
  - intros i Hi.
    assert (Hi' : i = 0%nat \/ i = 1%nat) by lia.
    destruct Hi' as [-> | ->].
    + exists (GoError.errorString "connection timeout"). repeat split.
    + exists (GoError.errorString "i/o timeout"). repeat split.
  - reflexivity.
  - simpl. lia.
Defined.

Lemma retries_exhausted_witness :
  exists err,
    fst (Retry.WithRetry nat
           (Retry.scripted [Some (GoError.errorString "connection timeout");
                            Some accessDenied])
           background half oneRetry "upload" 0%nat)
    = (Some err, 2%nat)
    /\ GoError.Error err
       = "operation failed after 2 retries: access denied"
    /\ GoError.Unwrap err = Some accessDenied.
Proof.
  apply (retries_exhausted nat
           (Retry.scripted [Some (GoError.errorString "connection timeout");
                            Some accessDenied])
           background half oneRetry "upload" 0%nat accessDenied).
  - simpl. lia.
  - intros i Hi. assert (i = 0%nat) as -> by (simpl in Hi; lia).
    exists (GoError.errorString "connection timeout"). repeat split.
  - reflexivity.
Defined.

Lemma cancelled_during_wait_witness :
  fst (Retry.WithRetry nat
         (Retry.scripted [Some (GoError.errorString "connection timeout")])
         deadline half Retry.DefaultClientCopyRetryConfig "download" 0%nat)
  = (Some (GoError.errorString "context deadline exceeded"), 1%nat).
Proof.
  apply (cancelled_during_wait nat
           (Retry.scripted [Some (GoError.errorString "connection timeout")])
           deadline half Retry.DefaultClientCopyRetryConfig "download" 0%nat
           0%nat (GoError.errorString "connection timeout")
           (GoError.errorString "context deadline exceeded")).
  - intros i Hi. lia.
  - reflexivity.
  - reflexivity.
  - simpl. lia.
  - reflexivity.
Defined.

Lemma negative_MaxRetries_witness :
  Retry.WithRetry nat (Retry.scripted [None]) background half
    noAttempt "download" 0%nat
  = (Some (GoError.wrapError
             "operation failed after 0 retries: %!w(<nil>)" None),
     0%nat, [Retry.FailedAfter "download" 0 None]).
Proof.
  apply (negative_MaxRetries nat (Retry.scripted [None]) background half
           noAttempt "download" 0%nat).
  simpl. lia.
Defined.

(** ** Bandwidth limiter: what parses, and the limiter it makes *)

Section LimitFacts.
Import GoStrings GoError Bandwidth.
Import DiskSpace (result, Ok, Err, isErr).




(** The validator accepts exactly the empty string and the strings
    that match the pattern, parse, and give a rate from 1 KiB/s to
    100 GiB/s. *)
Lemma accepted_format_iff (limitStr : string) :
  ValidateBandwidthFormat limitStr = None
  <-> limitStr = EmptyString
      \/ (formatRegex_MatchString (TrimSpace (ToUpper limitStr)) = true
          /\ exists bytesPerSecond,
               parseBandwidthLimit limitStr = Ok bytesPerSecond
               /\ (inject_Z 1024 <= bytesPerSecond)%Q
               /\ (bytesPerSecond <= inject_Z (100 * 1024 * 1024 * 1024))%Q).
Proof.
  unfold ValidateBandwidthFormat.
  destruct (String.eqb_spec limitStr EmptyString) as [->|Hne].
  - split; [now left | reflexivity].
  - cbv zeta.
    destruct (formatRegex_MatchString (TrimSpace (ToUpper limitStr))); cbn [negb].
    + destruct (parseBandwidthLimit limitStr) as [v|err].
      * destruct (Retry.Qltb v (inject_Z 1024)) eqn:E1.
        -- apply Qltb_true in E1. split; [discriminate|].
           intros [H | (_ & v' & H & Hlo & _)]; [contradiction|].
           injection H as <-. lra.
        -- apply Qltb_false in E1.
           destruct (Retry.Qltb (inject_Z (100 * 1024 * 1024 * 1024)) v) eqn:E2.
           ++ apply Qltb_true in E2. split; [discriminate|].
              intros [H | (_ & v' & H & _ & Hhi)]; [contradiction|].
              injection H as <-. lra.
           ++ apply Qltb_false in E2. split; [|reflexivity].
              intros _. right. split; [reflexivity|]. now exists v.
      * split; [discriminate|].
        intros [H | (_ & v' & H & _)]; [contradiction | discriminate].
    + split; [discriminate|].
      intros [H | (H & _)]; [contradiction | discriminate].
Qed.

Variable Limiter : Type.
Variable NewLimiter : Q -> Z -> Limiter.
Variable WaitN : Limiter -> Context -> Z -> option error * Limiter.


(** [NewBandwidthLimiter] fails exactly on a string that is not empty
    and does not parse. *)
Lemma NewBandwidthLimiter_error (limitStr : string) :
  isErr (NewBandwidthLimiter Limiter NewLimiter limitStr)
  = negb (limitStr =? EmptyString)%string && isErr (parseBandwidthLimit limitStr).
Proof.
  unfold NewBandwidthLimiter.
  destruct (limitStr =? EmptyString)%string; [reflexivity|].
  destruct (parseBandwidthLimit limitStr); reflexivity.
Qed.

End LimitFacts.



(** ** Sync strategies: how they relate, and the computed hash *)

Section MoreStrategyFacts.
Import GoStrings SyncStrategy.

Variable fs : string -> FileRead.

(** X14. Objects of different sizes are copied under every strategy. *)
Theorem different_sizes_always_copy (s : Strategy) (src dst : Object) :
  Size src <> Size dst -> ShouldSync fs s src dst = None.
Proof.
  intros H. apply Z.eqb_neq in H.
  destruct s; unfold ShouldSync, SizeOnly_ShouldSync, Hash_ShouldSync,
    SizeAndModification_ShouldSync; rewrite H; cbn [negb];
    try reflexivity.
  now destruct (After (ModTime src) (ModTime dst)).
Qed.

(** The hash strategy skips a pair exactly when the sizes are equal,
    neither token has the separator, and the tokens are equal; the reason
    is then [ErrObjectEtagsMatch]. *)
Lemma Hash_skip_iff (src dst : Object) (reason : SkipReason) :
  Hash_ShouldSync fs src dst = Some reason
  <-> reason = ErrObjectEtagsMatch
      /\ Size src = Size dst
      /\ isMultipartETag (getHash fs src) = false
      /\ isMultipartETag (getHash fs dst) = false
      /\ getHash fs src = getHash fs dst.
Proof.
  unfold Hash_ShouldSync.
  destruct (Z.eqb_spec (Size src) (Size dst)) as [Hs|Hs]; cbn [negb].
  - cbv zeta.
    destruct (isMultipartETag (getHash fs src)) eqn:E1;
      destruct (isMultipartETag (getHash fs dst)) eqn:E2; cbn [orb];
      try (split; [discriminate | intros (_ & _ & H1 & H2 & _); discriminate]).
    destruct (String.eqb_spec (getHash fs src) (getHash fs dst)) as [E|E].
    + split.
      * intros H. injection H as <-. auto.
      * intros (-> & _). reflexivity.
    + split; [discriminate | intros (_ & _ & _ & _ & H); contradiction].
  - split; [discriminate | intros (_ & H & _); contradiction].
Qed.

Lemma nibble_cases (n : N) :
  (n < 16)%N -> In n (List.map N.of_nat (List.seq 0 16)).
Proof.
  intros H. apply in_map_iff. exists (N.to_nat n). split.
  - lia.
  - apply in_seq. lia.
Qed.

Lemma hex_digit_cases (n : N) :
  (n < 16)%N ->
  In (n, hex_digit n)
    [ (0, "0"); (1, "1"); (2, "2"); (3, "3"); (4, "4"); (5, "5"); (6, "6");
      (7, "7"); (8, "8"); (9, "9"); (10, "a"); (11, "b"); (12, "c");
      (13, "d"); (14, "e"); (15, "f") ]%N%char.
Proof.
  intros H. apply nibble_cases in H. cbn [List.map List.seq] in H.
  repeat (destruct H as [<- | H]; [simpl; tauto|]).
  destruct H.
Qed.

Lemma hex_digit_inj (n m : N) :
  (n < 16)%N -> (m < 16)%N -> hex_digit n = hex_digit m -> n = m.
Proof.
  intros Hn Hm H.
  apply nibble_cases in Hn, Hm. cbn [List.map List.seq] in Hn, Hm.
  repeat (destruct Hn as [Hn | Hn]); try contradiction; subst n;
    repeat (destruct Hm as [Hm | Hm]); try contradiction; subst m;
    try reflexivity; vm_compute in H; discriminate H.
Qed.

Lemma hex_digit_not_dash (n : N) : (n < 16)%N -> hex_digit n <> "-"%char.
Proof.
  intros Hn H. pose proof (hex_digit_cases n Hn) as Cn. rewrite H in Cn.
  simpl in Cn.
  repeat (destruct Cn as [Cn | Cn]; [discriminate|]). contradiction.
Qed.

(** The hexadecimal form of a list of bytes has no separator in it. *)
Lemma EncodeToString_not_multipart (sum : list N) :
  Forall Bytes.is_byte sum -> isMultipartETag (EncodeToString sum) = false.
Proof.
  unfold isMultipartETag. induction 1 as [|b sum Hb _ IH]; [reflexivity|].
  cbn [EncodeToString]. unfold Bytes.is_byte in Hb.
  assert (H1 : (b / 16 < 16)%N) by (apply N.Div0.div_lt_upper_bound; lia).
  assert (H2 : (b mod 16 < 16)%N) by (apply N.mod_lt; lia).
  pose proof (hex_digit_not_dash _ H1) as D1.
  pose proof (hex_digit_not_dash _ H2) as D2.
  rewrite Contains_eq. cbn [String.prefix].
  destruct (ascii_dec "-" (hex_digit (b / 16))) as [E|_]; [congruence|].
  cbn [orb]. rewrite Contains_eq. cbn [String.prefix].
  destruct (ascii_dec "-" (hex_digit (b mod 16))) as [E|_]; [congruence|].
  exact IH.
Qed.

(** The hexadecimal form determines the bytes. *)
Lemma EncodeToString_inj (sum1 sum2 : list N) :
  Forall Bytes.is_byte sum1 -> Forall Bytes.is_byte sum2 ->
  EncodeToString sum1 = EncodeToString sum2 -> sum1 = sum2.
Proof.
  intros H1. revert sum2.
  induction H1 as [|b sum1 Hb _ IH]; intros sum2 H2 H.
  - destruct sum2; [reflexivity | discriminate].
  - destruct H2 as [|c sum2 Hc H2]; [discriminate|].
    cbn [EncodeToString] in H. injection H as Hhi Hlo Hrest.
    unfold Bytes.is_byte in Hb, Hc.
    apply hex_digit_inj in Hhi;
      [| apply N.Div0.div_lt_upper_bound; lia
       | apply N.Div0.div_lt_upper_bound; lia].
    apply hex_digit_inj in Hlo; [| apply N.mod_lt; lia | apply N.mod_lt; lia].
    f_equal; [|now apply IH].
    rewrite (N.div_mod b 16), (N.div_mod c 16) by lia. congruence.
Qed.

(** X15. For two local objects of one size without stored entity tags,
    whose files can both be read, the hash strategy skips exactly when
    the two MD5 sums are the same. *)
Theorem local_files_compared_by_digest (src dst : Object) (sum1 sum2 : list N) :
  Size src = Size dst ->
  IsRemote (obj_URL src) = false -> Etag src = EmptyString ->
  IsRemote (obj_URL dst) = false -> Etag dst = EmptyString ->
  fs (url_String (obj_URL src)) = Digest sum1 ->
  fs (url_String (obj_URL dst)) = Digest sum2 ->
  Forall Bytes.is_byte sum1 -> Forall Bytes.is_byte sum2 ->
  (sum1 = sum2 -> Hash_ShouldSync fs src dst = Some ErrObjectEtagsMatch)
  /\ (sum1 <> sum2 -> Hash_ShouldSync fs src dst = None).
Proof.
  intros Hs Hr1 He1 Hr2 He2 Hf1 Hf2 Hb1 Hb2.
  assert (G1 : getHash fs src = EncodeToString sum1).
  { unfold getHash. now rewrite Hr1, He1, Hf1. }
  assert (G2 : getHash fs dst = EncodeToString sum2).
  { unfold getHash. now rewrite Hr2, He2, Hf2. }
  unfold Hash_ShouldSync. rewrite Hs, Z.eqb_refl. cbn [negb]. cbv zeta.
  rewrite G1, G2, !EncodeToString_not_multipart by assumption. cbn [orb].
  split.
  - intros ->. now rewrite String.eqb_refl.
  - intros Hne.
    destruct (String.eqb_spec (EncodeToString sum1) (EncodeToString sum2))
      as [E|E]; [|reflexivity].
    apply EncodeToString_inj in E; auto. contradiction.
Qed.

End MoreStrategyFacts.

Lemma different_sizes_always_copy_witness :
  SyncStrategy.ShouldSync unreadable SyncStrategy.HashStrategy
    (remote "s3://b/k" 100 0 "etag1") (remote "s3://c/k" 200 0 "etag1") = None.
Proof.
  apply (different_sizes_always_copy unreadable SyncStrategy.HashStrategy
           (remote "s3://b/k" 100 0 "etag1") (remote "s3://c/k" 200 0 "etag1")).
  discriminate.
Defined.

Lemma local_files_compared_by_digest_witness :
  SyncStrategy.Hash_ShouldSync threeFiles
    (local "/a" 13 0 EmptyString) (local "/b" 13 0 EmptyString)
  = Some SyncStrategy.ErrObjectEtagsMatch
  /\ SyncStrategy.Hash_ShouldSync threeFiles
       (local "/a" 13 0 EmptyString) (local "/c" 13 0 EmptyString)
     = None.
Proof.
  assert (B1 : Forall Bytes.is_byte [212%N; 29%N])
    by (repeat constructor; reflexivity).
  assert (B2 : Forall Bytes.is_byte [9%N; 143%N])
    by (repeat constructor; reflexivity).
  split.
  - apply (local_files_compared_by_digest threeFiles
             (local "/a" 13 0 EmptyString) (local "/b" 13 0 EmptyString)
             [212%N; 29%N] [212%N; 29%N]); auto.
  - apply (local_files_compared_by_digest threeFiles
             (local "/a" 13 0 EmptyString) (local "/c" 13 0 EmptyString)
             [212%N; 29%N] [9%N; 143%N]); auto.
    discriminate.
Defined.

(** ** Disk-space guard: the headroom and the walk up the path *)

Section MoreGuardFacts.
Import GoError DiskSpace Roots.

(** X16. When the guard lets an object of less than 2^50 bytes pass,
    the free bytes are at least the size and a fifth of it: the object
    fits. *)
Theorem guard_passes_with_headroom (size free : Z) :
  0 <= size < 2 ^ 50 ->
  validateDiskSpace None (Ok size) (Ok free) = None ->
  size + size / 5 <= free.
Proof.
  intros Hsize. unfold validateDiskSpace.
  rewrite (requiredSpace_floor size Hsize).
  replace (6 * size) with (size * 5 + size) by lia.
  rewrite Z.div_add_l by lia.
  destruct (Z.ltb_spec free (size + size / 5)); [discriminate | auto].
Qed.



(** X18. If every step up the path from something that is not a root
    reaches a root or a shorter path, the walk ends within as many steps
    as the path has bytes, and the guard answers. *)
Theorem walk_up_terminates (os : OS) (path : string) :
  (forall p, ~ atRoot p ->
     atRoot (Dir os p)
     \/ (String.length (Dir os p) < String.length p)%nat) ->
  findExisting os (String.length path) path <> None
  /\ Platform.getAvailableDiskSpace os (String.length path) path <> None
  /\ Simple.getAvailableDiskSpace os (String.length path) path <> None.
Proof.
  intros HDir.
  assert (Hroot : forall fuel p, atRoot p -> findExisting os fuel p = Some p).
  { intros fuel p [-> | [-> | ->]]; destruct fuel; reflexivity. }
  assert (H : forall fuel p,
            (String.length p <= fuel)%nat -> findExisting os fuel p <> None).
  { induction fuel as [|fuel IH]; intros p Hl.
    - destruct p; [|simpl in Hl; lia]. discriminate.
    - cbn [findExisting].
      destruct (negb (p =? "/")%string && negb (p =? ".")%string
                && negb (p =? EmptyString)%string) eqn:E; [|discriminate].
      destruct (isDir os p); [discriminate|].
      destruct (isWindows os && _); [discriminate|].
      assert (Hp : ~ atRoot p).
      { intros [-> | [-> | ->]]; discriminate. }
      destruct (HDir p Hp) as [Hr | Hs].
      + rewrite (Hroot fuel _ Hr). discriminate.
      + apply IH. lia. }
  specialize (H (String.length path) path (le_n _)).
  split; [exact H|].
  unfold Platform.getAvailableDiskSpace, Simple.getAvailableDiskSpace.
  destruct (findExisting os (String.length path) path); [|contradiction].
  split.
  - destruct (isWindows os); [discriminate|].
    destruct (Platform.isUnix os); discriminate.
  - destruct (CreateTemp os _); discriminate.
Qed.

End MoreGuardFacts.

Lemma guard_passes_with_headroom_witness : 1000 + 1000 / 5 <= 1200.
Proof.
  apply (guard_passes_with_headroom 1000 1200); [lia | reflexivity].
Defined.

Lemma walk_up_terminates_witness :
  DiskSpace.findExisting fullDisk (String.length "/var/tmp/staging")
    "/var/tmp/staging" <> None
  /\ DiskSpace.Platform.getAvailableDiskSpace fullDisk
       (String.length "/var/tmp/staging") "/var/tmp/staging" <> None
  /\ DiskSpace.Simple.getAvailableDiskSpace fullDisk
       (String.length "/var/tmp/staging") "/var/tmp/staging" <> None.
Proof.
  apply (walk_up_terminates fullDisk "/var/tmp/staging").
  intros p _. left. left. reflexivity.
Defined.


(** ** Configuration validator *)

Section ConfigFacts.
Import GoStrings GoError Bandwidth Config.

Lemma endpointCheck_warnings (profile endpoint : string) :
  forallb isWarning
    (endpointCheck profile endpoint
       "warning: source endpoint specified without profile") = true
  /\ forallb isWarning
       (endpointCheck profile endpoint
          "warning: destination endpoint specified without profile") = true.
Proof.
  unfold endpointCheck.
  destruct (negb (profile =? EmptyString)%string
            && (endpoint =? EmptyString)%string);
    [split; reflexivity|].
  destruct ((profile =? EmptyString)%string
            && negb (endpoint =? EmptyString)%string); split; reflexivity.
Qed.

(** X19. The validator answers nothing but warnings exactly when the
    bandwidth limit is accepted and the two URLs are not empty and
    differ. *)
Theorem only_warnings_iff (config : ClientCopyConfig) :
  forallb isWarning (ValidateClientCopyConfig config) = true
  <-> ValidateBandwidthFormat (BandwidthLimit config) = None
      /\ SourceURL config <> EmptyString
      /\ DestinationURL config <> EmptyString
      /\ SourceURL config <> DestinationURL config.
Proof.
  unfold ValidateClientCopyConfig, urlAndEndpointErrors.
  rewrite !forallb_app.
  destruct (endpointCheck_warnings (SourceProfile config) (SourceEndpoint config))
    as [-> _].
  destruct (endpointCheck_warnings (DestinationProfile config)
              (DestinationEndpoint config)) as [_ ->].
  rewrite !andb_true_r.
  destruct (ValidateBandwidthFormat (BandwidthLimit config)) as [err|].
  - split; [discriminate | intros [H _]; discriminate].
  - destruct (String.eqb_spec (SourceURL config) EmptyString) as [E1|E1].
    + split; [discriminate | intros (_ & H & _); contradiction].
    + destruct (String.eqb_spec (DestinationURL config) EmptyString) as [E2|E2].
      * split; [discriminate | intros (_ & _ & H & _); contradiction].
      * destruct (String.eqb_spec (SourceURL config) (DestinationURL config))
          as [E3|E3].
        -- split; [discriminate | intros (_ & _ & _ & H); contradiction].
        -- split; [auto | reflexivity].
Qed.

(** The validator with the bandwidth limit answers what the one without
    answers, after the error on the limit if there is one. *)
Lemma validators_agree (config : ClientCopyConfig) :
  exists bandwidthErrors,
    ValidateClientCopyConfig config
    = app bandwidthErrors
        (ValidateClientCopyConfig_plain (SourceURL config)
           (DestinationURL config) (SourceProfile config)
           (DestinationProfile config) (SourceEndpoint config)
           (DestinationEndpoint config) (SkipDiskCheck config))
    /\ (List.length bandwidthErrors <= 1)%nat.
Proof.
  unfold ValidateClientCopyConfig, ValidateClientCopyConfig_plain.
  destruct (ValidateBandwidthFormat (BandwidthLimit config)) as [err|];
    eexists; split; try reflexivity; simpl; lia.
Qed.

End ConfigFacts.

(** A configuration that passes with two warnings. *)
Example warned_configuration :
  map GoError.Error (Config.ValidateClientCopyConfig warnedConfig)
  = [ "warning: source endpoint specified without profile";
      "warning: destination endpoint specified without profile" ].
Proof. vm_compute. reflexivity. Qed.

(** ** Metrics of a client copy *)

Section MetricsFacts.
Import GoStrings GoError Bandwidth Metrics Samples.
Import DiskSpace (result, Ok, Err).




Lemma length_substring (n : nat) :
  forall s, (n <= String.length s)%nat ->
            String.length (String.substring 0 n s) = n.
Proof.
  induction n as [|n IH]; intros [|c s] Hn; simpl in *; try lia.
  now rewrite IH by lia.
Qed.

Lemma prefix_substring (n : nat) :
  forall s, String.prefix (String.substring 0 n s) s = true.
Proof.
  induction n as [|n IH]; intros [|c s]; simpl; try reflexivity.
  destruct (ascii_dec c c); [apply IH | contradiction].
Qed.

(** X21. The summary of the last error is never empty and never longer
    than 100 bytes. An error of at most 100 bytes is shown as it is; a
    longer one by its first 97 bytes and three dots. *)
Theorem summary_is_bounded (m : ClientCopyMetrics) :
  let summary := getLastErrorSummary m in
  (1 <= String.length summary <= 100)%nat
  /\ ((1 <= String.length (LastError m) <= 100)%nat ->
      summary = LastError m)
  /\ ((100 < String.length (LastError m))%nat ->
      String.length summary = 100%nat
      /\ String.prefix (String.substring 0 97 summary) (LastError m) = true
      /\ String.substring 97 3 summary = "...").
Proof.
  unfold getLastErrorSummary.
  destruct (String.eqb_spec (LastError m) EmptyString) as [E|E].
  - rewrite E. simpl. repeat split; lia.
  - assert (Hpos : (1 <= String.length (LastError m))%nat).
    { destruct (LastError m); [contradiction | simpl; lia]. }
    destruct (Nat.ltb_spec 100 (String.length (LastError m))) as [Hl|Hl].
    + pose proof (length_substring 97 (LastError m) ltac:(lia)) as L.
      assert (Lapp : String.length
                       (String.substring 0 97 (LastError m) ++ "...")
                     = 100%nat).
      { rewrite length_app, L. reflexivity. }
      split; [cbv zeta; lia|]. split; [intros; lia|]. intros _.
      split; [exact Lapp|]. split.
      * rewrite <- L at 1. rewrite substring_app. apply prefix_substring.
      * clear - L. revert L.
        generalize (String.substring 0 97 (LastError m)) as a.
        intros a. do 97 (destruct a as [|? a]; [discriminate|]).
        destruct a; [reflexivity | discriminate].
    + split; [cbv zeta; lia|]. split; [reflexivity | intros; lia].
Qed.








Lemma scaleLoop_scale (bytes : Z) (fuel : nat) :
  forall n div exp,
    0 < div -> 1 <= n -> n = bytes / div -> n < 1024 ^ Z.of_nat fuel ->
    exists div' exp',
      scaleLoop fuel n div exp = Some (div', exp')
      /\ exp <= exp'
      /\ div' = div * 1024 ^ (exp' - exp)
      /\ div' <= bytes < 1024 * div'.
Proof.
  induction fuel as [|fuel IH]; intros n div exp Hdiv Hn Hq Hfuel.
  - simpl in Hfuel. lia.
  - cbn [scaleLoop]. destruct (Z.leb_spec 1024 n) as [Hge|Hlt].
    + rewrite Z.quot_div_nonneg by lia.
      destruct (IH (n / 1024) (div * 1024) (exp + 1)) as (d & e & H1 & H2 & H3 & H4).
      * lia.
      * apply Z.div_le_lower_bound; lia.
      * rewrite Hq, Z.div_div by lia. reflexivity.
      * apply Z.div_lt_upper_bound; [lia|].
        rewrite Nat2Z.inj_succ, Z.pow_succ_r in Hfuel by lia. exact Hfuel.
      * exists d, e. split; [exact H1|]. split; [lia|]. split; [|exact H4].
        rewrite H3. replace (e - exp) with (Z.succ (e - (exp + 1))) by lia.
        rewrite Z.pow_succ_r by lia. ring.
    + exists div, exp. split; [reflexivity|]. split; [lia|].
      split; [rewrite Z.sub_diag; simpl; lia|].
      pose proof (Z.div_mod bytes div ltac:(lia)) as Hdm.
      pose proof (Z.mod_pos_bound bytes div Hdiv) as Hm.
      rewrite <- Hq in Hdm. nia.
Qed.

(** X25. [formatBytes] answers for every number below 2^63: the index
    into the unit letters stays in range. From 1024 bytes on, the
    divisor is the power of 1024 with the bytes at least the divisor
    and less than 1024 times the divisor, it stays below 2^63, and the
    letter is the one of that power. *)
Theorem formatBytes_unit (bytes : Z) :
  bytes < 2 ^ 63 ->
  formatBytes bytes <> None
  /\ (1024 <= bytes ->
      exists div exp c,
        scaleLoop 64 (Z.quot bytes 1024) 1024 0 = Some (div, exp)
        /\ 0 <= exp <= 5
        /\ div = 1024 ^ (exp + 1)
        /\ div <= bytes < 1024 * div
        /\ String.get (Z.to_nat exp) "KMGTPE" = Some c
        /\ formatBytes bytes
           = Some (format_tenths
                     (float_to_Q (Float64.of_int bytes) / inject_Z div)
                   ++ " " ++ String c "B")).
Proof.
  intros Hmax.
  assert (Hbig : 1024 <= bytes ->
      exists div exp c,
        scaleLoop 64 (Z.quot bytes 1024) 1024 0 = Some (div, exp)
        /\ 0 <= exp <= 5
        /\ div = 1024 ^ (exp + 1)
        /\ div <= bytes < 1024 * div
        /\ String.get (Z.to_nat exp) "KMGTPE" = Some c
        /\ formatBytes bytes
           = Some (format_tenths
                     (float_to_Q (Float64.of_int bytes) / inject_Z div)
                   ++ " " ++ String c "B")).
  { intros Hmin.
    destruct (scaleLoop_scale bytes 64 (Z.quot bytes 1024) 1024 0)
      as (div & exp & H1 & H2 & H3 & H4).
    - lia.
    - rewrite Z.quot_div_nonneg by lia. apply Z.div_le_lower_bound; lia.
    - apply Z.quot_div_nonneg; lia.
    - rewrite Z.quot_div_nonneg by lia.
      apply Z.div_lt_upper_bound; [lia|].
      eapply Z.lt_trans; [exact Hmax|]. reflexivity.
    - rewrite Z.sub_0_r in H3.
      assert (Hdiv : div = 1024 ^ (exp + 1)).
      { rewrite H3, Z.pow_add_r by lia. change (1024 ^ 1) with 1024. ring. }
      assert (Hexp : exp <= 5).
      { destruct (Z.le_gt_cases exp 5) as [|Hgt]; [assumption|].
        pose proof (Z.pow_le_mono_r 1024 7 (exp + 1) ltac:(lia) ltac:(lia))
          as Hpow.
        rewrite <- Hdiv in Hpow.
        change (1024 ^ 7) with 1180591620717411303424 in Hpow.
        change (2 ^ 63) with 9223372036854775808 in Hmax. lia. }
      assert (Hget : exists c, String.get (Z.to_nat exp) "KMGTPE" = Some c).
      { assert (Hcases : exp = 0 \/ exp = 1 \/ exp = 2 \/ exp = 3
                         \/ exp = 4 \/ exp = 5) by lia.
        destruct Hcases as [-> | [-> | [-> | [-> | [-> | ->]]]]];
          eexists; reflexivity. }
      destruct Hget as [c Hget].
      exists div, exp, c. repeat split; try assumption; try lia.
      unfold formatBytes.
      destruct (Z.ltb_spec bytes 1024); [lia|].
      now rewrite H1, Hget. }
  split; [|exact Hbig].
  destruct (Z.lt_ge_cases bytes 1024) as [Hlt|Hge].
  - unfold formatBytes. destruct (Z.ltb_spec bytes 1024); [discriminate | lia].
  - destruct (Hbig Hge) as (div & exp & c & _ & _ & _ & _ & _ & ->).
    discriminate.
Qed.

End MetricsFacts.



Lemma formatBytes_unit_witness :
  Metrics.formatBytes 1536 <> None
  /\ (1024 <= 1536 ->
      exists div exp c,
        Metrics.scaleLoop 64 (Z.quot 1536 1024) 1024 0 = Some (div, exp)
        /\ 0 <= exp <= 5
        /\ div = 1024 ^ (exp + 1)
        /\ div <= 1536 < 1024 * div
        /\ String.get (Z.to_nat exp) "KMGTPE" = Some c
        /\ Metrics.formatBytes 1536
           = Some (Metrics.format_tenths
                     (Metrics.float_to_Q (Float64.of_int 1536) / inject_Z div)
                   ++ " " ++ String c "B")).
Proof. apply (formatBytes_unit 1536). reflexivity. Defined.

(** The peak of the three samples is the 4000 bytes of the last
    second. *)
Example peak_of_three_samples :
  (Metrics.GetPeakThroughput sampled == 4000)%Q.
Proof. vm_compute. reflexivity. Qed.

(** One byte below a mebibyte is shown as 1024.0 KB, and 1536 bytes as
    1.5 KB. *)
Example formatBytes_examples :
  Metrics.formatBytes 1536 = Some "1.5 KB"
  /\ Metrics.formatBytes 1048575 = Some "1024.0 KB"
  /\ Metrics.formatBytes (-5) = Some "-5 B".
Proof. vm_compute. repeat split. Qed.

(** ** The normal form of an accepted limit *)

Section NormalForm.
Import GoStrings GoError Bandwidth Chars.
Import DiskSpace (result, Ok, Err, isErr).

(** A string that ends with a white-space byte of the regular
    expressions. *)
Local Abbreviation ends_blank s :=
  (exists z c, s = z ++ String c EmptyString /\ is_re_space c = true).

Lemma every_app (p : ascii -> bool) (a b : string) :
  every p (a ++ b) = every p a && every p b.
Proof.
  induction a as [|x a IH]; simpl; [reflexivity|].
  now rewrite IH, andb_assoc.
Qed.

Lemma every_weaken (p q : ascii -> bool) (s : string) :
  (forall c, p c = true -> q c = true) ->
  every p s = true -> every q s = true.
Proof.
  intros Hpq. induction s as [|x s IH]; simpl; [reflexivity|].
  intros H. apply andb_true_iff in H as [H1 H2].
  now rewrite (Hpq x H1), IH.
Qed.

Lemma in_number_plain (c : ascii) :
  in_number c = true ->
  is_lower c = false /\ is_space c = false /\ is_re_space c = false.
Proof.
  destruct c as [[] [] [] [] [] [] [] []]; vm_compute; intros H;
    try discriminate H; repeat split.
Qed.

Lemma digit_in_number (c : ascii) : is_digit c = true -> in_number c = true.
Proof. unfold in_number. now intros ->. Qed.

Lemma blank_not_digit (c : ascii) :
  is_re_space c = true -> digit_of c = None.
Proof.
  destruct c as [[] [] [] [] [] [] [] []]; vm_compute; intros H;
    try discriminate H; reflexivity.
Qed.

Lemma read_digits_split (s : string) :
  forall acc n a c rest,
    read_digits s acc n = (a, c, rest) ->
    exists ds,
      s = ds ++ rest /\ every is_digit ds = true
      /\ c = n + Z.of_nat (String.length ds).
Proof.
  induction s as [|x s IH]; intros acc n a c rest H; simpl in H.
  - injection H as <- <- <-. exists EmptyString. simpl. repeat split. lia.
  - destruct (digit_of x) as [d|] eqn:E.
    + apply IH in H as (ds & -> & Hd & ->). exists (String x ds).
      simpl. unfold is_digit at 1. rewrite E, Hd. repeat split. lia.
    + injection H as <- <- <-. exists EmptyString. simpl. repeat split. lia.
Qed.

Lemma skip_re_spaces_split (s : string) :
  exists blanks,
    s = blanks ++ skip_re_spaces s /\ every is_re_space blanks = true.
Proof.
  induction s as [|x s (blanks & IH & Hb)]; simpl.
  - now exists EmptyString.
  - destruct (is_re_space x) eqn:E.
    + exists (String x blanks). simpl. now rewrite E, Hb, <- IH.
    + now exists EmptyString.
Qed.

(** What the pattern of the validator matches: a number that starts with
    a digit, white space, one of the units. *)
Lemma matched_shape (s : string) :
  formatRegex_MatchString s = true ->
  exists number blanks unit,
    s = number ++ blanks ++ unit
    /\ In unit units
    /\ every in_number number = true
    /\ every is_re_space blanks = true
    /\ exists d r, number = String d r /\ is_digit d = true.
Proof.
  unfold formatRegex_MatchString.
  destruct (read_digits s 0 0) as [[a n] s1] eqn:R.
  apply read_digits_split in R as (D & -> & HD & ->).
  destruct D as [|d D]; [discriminate|].
  destruct (Z.eqb_spec (0 + Z.of_nat (String.length (String d D))) 0) as [E|_];
    [simpl in E; lia|].
  match goal with |- context [skip_re_spaces ?x] => set (s2 := x) end.
  assert (HF : exists F, s1 = F ++ s2 /\ every in_number F = true).
  { subst s2. destruct s1 as [|c s1]; [now exists EmptyString|].
    destruct (ascii_dec c ".") as [->|Hc].
    - destruct (read_digits s1 0 0) as [[a' nf] rest'] eqn:R2.
      apply read_digits_split in R2 as (Fd & -> & HFd & ->).
      destruct (Z.eqb_spec (0 + Z.of_nat (String.length Fd)) 0).
      + now exists EmptyString.
      + exists (String "." Fd). split; [reflexivity|]. simpl.
        apply (every_weaken is_digit); [apply digit_in_number | exact HFd].
    - exists EmptyString. split; [|reflexivity]. simpl.
      destruct c as [[] [] [] [] [] [] [] []]; try reflexivity; congruence. }
  clearbody s2. destruct HF as (F & -> & HF).
  intros H. apply existsb_exists in H as (unit & Hin & Heq).
  apply String.eqb_eq in Heq.
  destruct (skip_re_spaces_split s2) as (blanks & Hs2 & Hb).
  rewrite Heq in Hs2.
  exists (String d D ++ F), blanks, unit. repeat split; auto.
  - rewrite Hs2. now rewrite app_assoc_string.
  - rewrite every_app, HF, andb_true_r.
    apply (every_weaken is_digit); [apply digit_in_number | exact HD].
  - simpl in HD. apply andb_true_iff in HD as [Hd _].
    now exists d, (D ++ F).
Qed.

(** What [parseBandwidthLimit] hands to [ParseFloat] when the string,
    trimmed and in capitals, ends with a unit. *)
Lemma parsed_number (limitStr number unit : string) (bytesPerSecond : Q) :
  In unit units ->
  TrimSpace (ToUpper limitStr) = number ++ unit ->
  parseBandwidthLimit limitStr = Ok bytesPerSecond ->
  exists num, ParseFloat number = Ok num.
Proof.
  intros Hin Hl. unfold parseBandwidthLimit. rewrite Hl.
  unfold units in Hin. simpl in Hin.
  destruct Hin as [H|[H|[H|[H|[H|[H|[]]]]]]]; subst unit;
    repeat match goal with
      | |- context [HasSuffix (?z ++ ?u) ?suffix] =>
          rewrite (HasSuffix_app z u suffix) by (simpl; lia);
          let b := eval vm_compute in (HasSuffix u suffix) in
          change (HasSuffix u suffix) with b
      end;
    cbv iota; rewrite TrimSuffix_app;
    (destruct (ParseFloat number) as [num|err]; [now exists num | discriminate]).
Qed.

Lemma ends_blank_tail (c : ascii) (s : string) :
  ends_blank (String c s) -> is_re_space c = false -> ends_blank s.
Proof.
  intros (z & w & H & Hw) Hc. destruct z as [|x z]; simpl in H.
  - injection H as -> _. congruence.
  - injection H as _ ->. now exists z, w.
Qed.

Lemma ends_blank_nonempty (s : string) : ends_blank s -> s <> EmptyString.
Proof. intros (z & w & -> & _). destruct z; discriminate. Qed.

Lemma read_digits_blank (s : string) :
  forall acc n, ends_blank s -> ends_blank (snd (read_digits s acc n)).
Proof.
  induction s as [|c s IH]; intros acc n H; simpl; [exact H|].
  destruct (digit_of c) as [d|] eqn:E; [|exact H].
  apply IH. apply (ends_blank_tail c s H).
  destruct (is_re_space c) eqn:B; [|reflexivity].
  apply blank_not_digit in B. congruence.
Qed.

Lemma read_sign_blank (s : string) :
  ends_blank s -> ends_blank (snd (read_sign s)).
Proof.
  intros H. unfold read_sign.
  destruct s as [|c s]; [exact H|].
  destruct (ascii_dec c "+") as [->|H1]; [simpl|].
  - now apply (ends_blank_tail "+" s H).
  - destruct (ascii_dec c "-") as [->|H2]; [simpl|].
    + now apply (ends_blank_tail "-" s H).
    + replace (snd match c with
                   | "+"%char => (false, s)
                   | "-"%char => (true, s)
                   | _ => (false, String c s)
                   end) with (String c s); [exact H|].
      destruct c as [[] [] [] [] [] [] [] []]; try reflexivity; congruence.
Qed.

Lemma read_fraction_blank (s : string) (ip : Z) :
  ends_blank s -> ends_blank (snd (read_fraction s ip)).
Proof.
  intros H. unfold read_fraction.
  destruct s as [|c s]; [exact H|].
  destruct (ascii_dec c ".") as [->|H1].
  - apply read_digits_blank. now apply (ends_blank_tail "." s H).
  - replace (snd match c with
                 | "."%char => read_digits s ip 0
                 | _ => (ip, 0, String c s)
                 end) with (String c s); [exact H|].
    destruct c as [[] [] [] [] [] [] [] []]; try reflexivity; congruence.
Qed.

Lemma read_exponent_blank (s : string) :
  ends_blank s ->
  match read_exponent s with
  | Some (_, rest) => rest <> EmptyString
  | None => True
  end.
Proof.
  intros H. unfold read_exponent.
  destruct s as [|c s]; [now apply ends_blank_nonempty in H|].
  destruct ((c =? "e")%char || (c =? "E")%char) eqn:E.
  - assert (Hc : is_re_space c = false).
    { apply orb_true_iff in E as [E|E]; apply Ascii.eqb_eq in E; now subst c. }
    pose proof (ends_blank_tail c s H Hc) as Hs.
    pose proof (read_sign_blank s Hs) as H1.
    destruct (read_sign s) as [neg rest]. simpl in H1.
    pose proof (read_digits_blank rest 0 0 H1) as H2.
    destruct (read_digits rest 0 0) as [[e n] rest']. simpl in H2.
    destruct (n =? 0); [exact I|].
    now apply ends_blank_nonempty.
  - discriminate.
Qed.

(** [ParseFloat] refuses every string that ends with white space. *)
Lemma ParseFloat_ends_blank (s : string) :
  ends_blank s -> ParseFloat s = Err (syntaxError s).
Proof.
  intros H. unfold ParseFloat.
  pose proof (read_sign_blank s H) as H1.
  destruct (read_sign s) as [neg s1]. simpl in H1.
  pose proof (read_digits_blank s1 0 0 H1) as H2.
  destruct (read_digits s1 0 0) as [[ip ni] s2]. simpl in H2.
  pose proof (read_fraction_blank s2 ip H2) as H3.
  destruct (read_fraction s2 ip) as [[mant nf] s3]. simpl in H3.
  destruct (ni + nf =? 0); [reflexivity|].
  pose proof (read_exponent_blank s3 H3) as H4.
  destruct (read_exponent s3) as [[e rest]|]; [|reflexivity].
  destruct rest; [congruence | reflexivity].
Qed.

Lemma last_byte (p : ascii -> bool) (s : string) :
  s <> EmptyString -> every p s = true ->
  exists z c, s = z ++ String c EmptyString /\ p c = true.
Proof.
  induction s as [|x s IH]; [congruence|]. intros _ H. simpl in H.
  apply andb_true_iff in H as [Hx Hs].
  destruct s as [|y s].
  - now exists EmptyString, x.
  - destruct (IH ltac:(discriminate) Hs) as (z & c & -> & Hc).
    now exists (String x z), c.
Qed.

(** An accepted limit, trimmed and in capitals, is a number that starts
    with a digit and one of the units, with nothing between them. *)
Lemma accepted_shape (limitStr : string) :
  limitStr <> EmptyString ->
  ValidateBandwidthFormat limitStr = None ->
  exists number unit,
    TrimSpace (ToUpper limitStr) = number ++ unit
    /\ In unit units
    /\ every in_number number = true
    /\ exists d r, number = String d r /\ is_digit d = true.
Proof.
  intros Hne H.
  apply accepted_format_iff in H as [H | (Hm & v & Hp & _)]; [contradiction|].
  apply matched_shape in Hm as (number & blanks & unit & Hl & Hin & Hn & Hb & Hd).
  rewrite <- app_assoc_string in Hl.
  destruct (parsed_number _ _ _ _ Hin Hl Hp) as [num Hnum].
  destruct blanks as [|b blanks].
  - rewrite app_empty_r in Hl. now exists number, unit.
  - destruct (last_byte is_re_space (String b blanks) ltac:(discriminate) Hb)
      as (z & c & Hz & Hc).
    rewrite ParseFloat_ends_blank in Hnum; [discriminate|].
    exists (number ++ z), c. split; [|exact Hc].
    now rewrite Hz, app_assoc_string.
Qed.

Lemma squeeze_without_blanks (s : string) :
  every (fun c => negb (is_re_space c)) s = true ->
  forall afterDigit, squeeze afterDigit EmptyString s = s.
Proof.
  induction s as [|c s IH]; intros H afterDigit; [reflexivity|].
  simpl in H. apply andb_true_iff in H as [Hc Hs].
  apply negb_true_iff in Hc. cbn [squeeze]. rewrite Hc, andb_false_r.
  change (negb (EmptyString =? EmptyString)%string) with false.
  rewrite andb_false_r. cbn [andb]. rewrite (IH Hs). reflexivity.
Qed.

Lemma upper_plain (s : string) :
  every (fun c => negb (is_lower c)) s = true -> ToUpper s = s.
Proof.
  unfold ToUpper. induction s as [|c s IH]; [reflexivity|]. simpl. intros H.
  apply andb_true_iff in H as [Hc Hs]. apply negb_true_iff in Hc.
  rewrite (IH Hs). unfold upper_char. now rewrite Hc.
Qed.

Lemma unit_plain (unit : string) :
  In unit units ->
  every (fun c => negb (is_lower c)) unit = true
  /\ every (fun c => negb (is_space c)) unit = true
  /\ every (fun c => negb (is_re_space c)) unit = true
  /\ exists c r, rev_string unit = String c r /\ is_space c = false.
Proof.
  unfold units. simpl.
  intros [H|[H|[H|[H|[H|[H|[]]]]]]]; subst unit;
    (repeat split; [eexists; eexists; split; reflexivity]).
Qed.

(** X26. What [ValidateAndNormalize] returns is the string trimmed and
    in capitals: the white space the last step removes is never there,
    as [parseBandwidthLimit] refuses it. The result holds no white space
    and is its own normal form. *)
Theorem normal_form_is_fixed (limitStr normalized : string) :
  ValidateAndNormalize limitStr = Ok normalized ->
  normalized = TrimSpace (ToUpper limitStr)
  /\ every (fun c => negb (is_space c)) normalized = true
  /\ ValidateAndNormalize normalized = Ok normalized.
Proof.
  unfold ValidateAndNormalize at 1.
  destruct (ValidateBandwidthFormat limitStr) as [err|] eqn:V; [discriminate|].
  destruct (String.eqb_spec limitStr EmptyString) as [->|Hne].
  - intros H. injection H as <-. repeat split.
  - intros H. injection H as <-.
    destruct (accepted_shape limitStr Hne V)
      as (number & unit & Hl & Hin & Hn & d & r & -> & Hd).
    destruct (unit_plain unit Hin) as (U1 & U2 & U3 & c & r' & Hrev & Hc).
    set (l := TrimSpace (ToUpper limitStr)) in *.
    assert (N1 : every (fun c => negb (is_lower c)) (String d r) = true).
    { apply (every_weaken in_number); [|exact Hn].
      intros x Hx. apply in_number_plain in Hx as (-> & _). reflexivity. }
    assert (N2 : every (fun c => negb (is_space c)) (String d r) = true).
    { apply (every_weaken in_number); [|exact Hn].
      intros x Hx. apply in_number_plain in Hx as (_ & -> & _). reflexivity. }
    assert (N3 : every (fun c => negb (is_re_space c)) (String d r) = true).
    { apply (every_weaken in_number); [|exact Hn].
      intros x Hx. apply in_number_plain in Hx as (_ & _ & ->). reflexivity. }
    assert (Hsq : squeeze false EmptyString l = l).
    { apply squeeze_without_blanks. now rewrite Hl, every_app, N3, U3. }
    assert (Hup : ToUpper l = l).
    { apply upper_plain. now rewrite Hl, every_app, N1, U1. }
    assert (Htrim : TrimSpace l = l).
    { rewrite Hl. unfold TrimSpace.
      assert (Hleft : trim_left (String d r ++ unit) = String d r ++ unit).
      { simpl in N2. apply andb_true_iff in N2 as [N2 _].
        apply negb_true_iff in N2. simpl. now rewrite N2. }
      rewrite Hleft.
      apply (trim_right_keep _ c (r' ++ rev_string (String d r))); [|exact Hc].
      now rewrite rev_string_app, Hrev. }
    assert (Hnorm : TrimSpace (ToUpper l) = l) by now rewrite Hup.
    rewrite Hsq. split; [reflexivity|]. split.
    { now rewrite Hl, every_app, N2, U2. }
    assert (Hl_ne : l <> EmptyString) by (rewrite Hl; discriminate).
    assert (Hparse : parseBandwidthLimit l = parseBandwidthLimit limitStr).
    { unfold parseBandwidthLimit. now rewrite Hnorm. }
    assert (Vl : ValidateBandwidthFormat l = None).
    { apply accepted_format_iff. right.
      apply accepted_format_iff in V as [V | (Hm & v & Hp & Hb)];
        [contradiction|].
      rewrite Hnorm. split; [exact Hm|]. exists v. now rewrite Hparse. }
    unfold ValidateAndNormalize. rewrite Vl.
    destruct (String.eqb_spec l EmptyString); [contradiction|].
    now rewrite Hnorm, Hsq.
Qed.

End NormalForm.

Lemma normal_form_is_fixed_witness :
  "100MB/S" = GoStrings.TrimSpace (GoStrings.ToUpper " 100mb/s ")
  /\ Chars.every (fun c => negb (GoStrings.is_space c)) "100MB/S" = true
  /\ Bandwidth.ValidateAndNormalize "100MB/S" = DiskSpace.Ok "100MB/S".
Proof.
  apply (normal_form_is_fixed " 100mb/s " "100MB/S"). vm_compute. reflexivity.
Defined.

(** ** Suggested corrections *)

Section SuggestionFacts.
Import GoStrings GoError Bandwidth Chars Suggest.

Lemma read_digits_app (ds : string) :
  forall rest acc n,
    every is_digit ds = true ->
    (forall c r, rest = String c r -> digit_of c = None) ->
    exists a,
      read_digits (ds ++ rest) acc n
      = (a, n + Z.of_nat (String.length ds), rest).
Proof.
  induction ds as [|x ds IH]; intros rest acc n Hd Hrest.
  - exists acc. simpl. destruct rest as [|c r].
    + simpl. do 2 f_equal. lia.
    + simpl. rewrite (Hrest c r eq_refl). do 2 f_equal. lia.
  - simpl in Hd. apply andb_true_iff in Hd as [Hx Hd].
    unfold is_digit in Hx. cbn [append read_digits].
    destruct (digit_of x) as [d|]; [|discriminate].
    destruct (IH rest (10 * acc + d) (n + 1) Hd Hrest) as [a ->].
    exists a. do 2 f_equal. cbn [String.length]. lia.
Qed.

(** The number a string starts with, as the two patterns read it:
    digits, and a point with digits after it if there is one. *)
Lemma leading_number (s : string) (a n : Z) (s1 : string) :
  read_digits s 0 0 = (a, n, s1) -> n <> 0 ->
  exists d r fraction,
    s = String d r ++ fraction ++ optional_fraction s1
    /\ every is_digit (String d r) = true
    /\ (fraction = EmptyString
        \/ exists f fs, fraction = String "." (String f fs)
                        /\ every is_digit (String f fs) = true).
Proof.
  intros R Hn. apply read_digits_split in R as (D & -> & HD & ->).
  destruct D as [|d D]; [simpl in Hn; lia|].
  exists d, D.
  destruct s1 as [|c s1]; [exists EmptyString; simpl; auto|].
  destruct (ascii_dec c ".") as [->|Hc].
  - unfold optional_fraction.
    destruct (read_digits s1 0 0) as [[a' nf] rest'] eqn:R2.
    apply read_digits_split in R2 as (Fd & -> & HFd & ->).
    destruct Fd as [|f fs].
    + exists EmptyString. simpl. auto.
    + destruct (Z.eqb_spec (0 + Z.of_nat (String.length (String f fs))) 0) as [E|_];
        [simpl in E; lia|].
      exists (String "." (String f fs)). repeat split; auto.
      right. now exists f, fs.
  - exists EmptyString. repeat split; auto. simpl. f_equal. f_equal.
    unfold optional_fraction.
    destruct c as [[] [] [] [] [] [] [] []]; try reflexivity; congruence.
Qed.

Lemma looked_up (key correction : string) :
  lookup key corrections = Some correction ->
  In (ToUpper correction) units
  /\ exists c r, correction = String c r /\ digit_of c = None.
Proof.
  unfold corrections. cbn [lookup].
  repeat match goal with
    | |- context [(key =? ?k)%string] =>
        destruct (key =? k)%string;
        [intros H; injection H as <-; split;
         [vm_compute; tauto | eexists; eexists; split; reflexivity] |]
    end.
  discriminate.
Qed.

Lemma unit_first (unit : string) :
  In unit units ->
  exists c r, unit = String c r /\ digit_of c = None /\ c <> "."%char
              /\ skip_re_spaces unit = unit.
Proof.
  unfold units. simpl.
  intros [H|[H|[H|[H|[H|[H|[]]]]]]]; subst unit;
    (eexists; eexists; split; [reflexivity|]; split; [reflexivity|];
     split; [discriminate | reflexivity]).
Qed.

(** A number and a unit with nothing between them match the pattern of
    the validator. *)
Lemma number_and_unit_match (d : ascii) (r fraction unit : string) :
  every is_digit (String d r) = true ->
  (fraction = EmptyString
   \/ exists f fs, fraction = String "." (String f fs)
                   /\ every is_digit (String f fs) = true) ->
  In unit units ->
  formatRegex_MatchString (String d r ++ fraction ++ unit) = true.
Proof.
  intros HD HF Hin.
  destruct (unit_first unit Hin) as (c & u & Hu & Hc & Hdot & Hskip).
  assert (Hmem : existsb (String.eqb unit) units = true).
  { apply existsb_exists. exists unit. split; [exact Hin | apply String.eqb_refl]. }
  unfold formatRegex_MatchString.
  destruct HF as [-> | (f & fs & -> & HFd)].
  - cbn [append].
    change (String d (r ++ unit)) with (String d r ++ unit).
    destruct (read_digits_app (String d r) unit 0 0 HD) as [a ->].
    { intros c' r' E. rewrite Hu in E. injection E as <- _. exact Hc. }
    destruct (Z.eqb_spec (0 + Z.of_nat (String.length (String d r))) 0) as [E|_];
      [simpl in E; lia|].
    replace (match unit with
             | String "."%char rest =>
                 let '(_, nf, rest') := read_digits rest 0 0 in
                 if nf =? 0 then unit else rest'
             | _ => unit
             end) with unit.
    + now rewrite Hskip.
    + rewrite Hu.
      destruct c as [[] [] [] [] [] [] [] []]; try reflexivity; congruence.
  - destruct (read_digits_app (String d r) (String "." (String f fs) ++ unit)
                0 0 HD) as [a ->].
    { intros c' r' E. injection E as <- _. reflexivity. }
    destruct (Z.eqb_spec (0 + Z.of_nat (String.length (String d r))) 0) as [E|_];
      [simpl in E; lia|].
    change (String "." (String f fs) ++ unit)
      with (String "." (String f fs ++ unit)).
    cbv iota beta.
    destruct (read_digits_app (String f fs) unit 0 0 HFd) as [a' ->].
    { intros c' r' E. rewrite Hu in E. injection E as <- _. exact Hc. }
    destruct (Z.eqb_spec (0 + Z.of_nat (String.length (String f fs))) 0) as [E|_];
      [simpl in E; lia|].
    now rewrite Hskip.
Qed.

(** X27. Whatever the input, the suggestion matches the pattern of the
    validator once it is trimmed and put in capitals, as the validator
    does: it is never refused as an invalid format. *)
Theorem suggestion_matches_pattern (invalidFormat : string) :
  formatRegex_MatchString
    (TrimSpace (ToUpper (SuggestCorrection invalidFormat))) = true.
Proof.
  unfold SuggestCorrection. cbv zeta.
  set (lower := ToLower (TrimSpace invalidFormat)).
  unfold numRegex_FindStringSubmatch.
  destruct (read_digits lower 0 0) as [[a n] s1] eqn:R.
  destruct (Z.eqb_spec n 0) as [|Hn]; [reflexivity|].
  cbv zeta.
  destruct (has_newline _); [reflexivity|].
  destruct (lookup _ corrections) as [correction|] eqn:L; [|reflexivity].
  destruct (leading_number lower a n s1 R Hn) as (d & r & fraction & Hl & HD & HF).
  destruct (looked_up _ _ L) as (Hin & c & u & Hc & Hcd).
  assert (Hnum : String.substring 0
                   (String.length lower
                    - String.length (optional_fraction s1)) lower
                 = String d r ++ fraction).
  { rewrite Hl at 2. rewrite Hl at 1.
    rewrite <- app_assoc_string, length_app.
    replace (String.length (String d r ++ fraction)
             + String.length (optional_fraction s1)
             - String.length (optional_fraction s1))%nat
      with (String.length (String d r ++ fraction)) by lia.
    apply substring_app. }
  rewrite Hnum.
  assert (Hn1 : every in_number (String d r ++ fraction) = true).
  { rewrite every_app.
    rewrite (every_weaken is_digit in_number _ digit_in_number HD).
    destruct HF as [-> | (f & fs & -> & HFd)]; [reflexivity|].
    cbn [every]. rewrite andb_true_l. change (in_number ".") with true.
    apply (every_weaken is_digit in_number _ digit_in_number HFd). }
  assert (Hup : ToUpper ((String d r ++ fraction) ++ correction)
                = (String d r ++ fraction) ++ ToUpper correction).
  { unfold ToUpper at 1. rewrite map_chars_app. f_equal.
    apply upper_plain. apply (every_weaken in_number); [|exact Hn1].
    intros x Hx. apply in_number_plain in Hx as (-> & _). reflexivity. }
  rewrite Hup.
  destruct (unit_plain _ Hin) as (_ & _ & _ & c' & r' & Hrev & Hsp).
  assert (Htrim : TrimSpace ((String d r ++ fraction) ++ ToUpper correction)
                  = (String d r ++ fraction) ++ ToUpper correction).
  { unfold TrimSpace.
    assert (Hleft : trim_left ((String d r ++ fraction) ++ ToUpper correction)
                    = (String d r ++ fraction) ++ ToUpper correction).
    { simpl in HD. apply andb_true_iff in HD as [Hd _].
      apply digit_in_number, in_number_plain in Hd as (_ & Hd & _).
      simpl. now rewrite Hd. }
    rewrite Hleft.
    apply (trim_right_keep _ c' (r' ++ rev_string (String d r ++ fraction)));
      [|exact Hsp].
    now rewrite rev_string_app, Hrev. }
  rewrite Htrim, app_assoc_string.
  now apply number_and_unit_match.
Qed.

End SuggestionFacts.

(** Suggestions for a missing [/s] and for a space; what does not start
    with a number gets the default, and so does an accepted unit after a
    space. *)
Example suggestions :
  Suggest.SuggestCorrection "100 mb" = "100MB/s"
  /\ Suggest.SuggestCorrection " 1.5  GBS " = "1.5GB/s"
  /\ Suggest.SuggestCorrection "fast" = "50MB/s"
  /\ Suggest.SuggestCorrection "10 MB/s" = "50MB/s".
Proof. vm_compute. repeat split. Qed.

(** A suggestion can still be refused for its value: the number is
    taken over as it is. *)
Example suggestion_refused :
  Suggest.SuggestCorrection "0 mb" = "0MB/s"
  /\ option_map GoError.Error (Bandwidth.ValidateBandwidthFormat "0MB/s")
     = Some "failed to parse bandwidth limit: bandwidth limit must be positive"
  /\ Suggest.SuggestCorrection "1kbps" = "1Kbps"
  /\ option_map GoError.Error (Bandwidth.ValidateBandwidthFormat "1Kbps")
     = Some "bandwidth limit too low: minimum 1KB/s".
Proof. vm_compute. repeat split. Qed.

(** ** Throttled streams: where the wait stands *)

Section ThrottleFacts.
Import GoError Bandwidth.

Variable Limiter : Type.
Variable WaitN : Limiter -> Context -> Z -> option error * Limiter.
Variable S : Type.
Variable reader_Read : S -> Z -> (Z * option error) * S.
Variable writer_Write : S -> list N -> (Z * option error) * S.

(** X28. With an enabled limiter the writer waits before it writes and
    the reader after it has read. A write the token bucket refuses
    answers zero bytes and the error, and the wrapped writer is not
    called. A read is always made on the wrapped reader first; when the
    bucket then refuses, the count of the bytes read is still answered,
    with the error of the bucket in the place of the error of the read.
    The bucket is asked for the whole buffer on a write and for the
    bytes read on a read. *)
Theorem wait_before_write_and_after_read (l l' : Limiter) (ctx : Context)
    (waitErr : error) (tokens : Z) :
  WaitN l ctx tokens = (Some waitErr, l') ->
  let bl := mkBandwidthLimiter Limiter (Some l) true in
  let bl' := mkBandwidthLimiter Limiter (Some l') true in
  (forall writer p,
     Z.of_nat (List.length p) = tokens ->
     LimitedWriter_Write Limiter WaitN S writer_Write
       (NewLimitedWriter Limiter S writer bl ctx) p
     = Done ((0, Some waitErr), NewLimitedWriter Limiter S writer bl' ctx))
  /\ (forall reader len readErr reader',
        reader_Read reader len = ((tokens, readErr), reader') ->
        0 < tokens ->
        LimitedReader_Read Limiter WaitN S reader_Read
          (NewLimitedReader Limiter S reader bl ctx) len
        = Done ((tokens, Some waitErr),
                NewLimitedReader Limiter S reader' bl' ctx)).
Proof.
  intros HW bl bl'. split.
  - intros writer p Hlen.
    unfold LimitedWriter_Write, NewLimitedWriter, Wait, bl.
    cbn [lw_limiter lw_writer lw_ctx enabled limiter negb].
    now rewrite Hlen, HW.
  - intros reader len readErr reader' HR Hpos.
    unfold LimitedReader_Read, NewLimitedReader, Wait, bl.
    cbn [lr_limiter lr_reader lr_ctx enabled limiter negb].
    rewrite HR. apply Z.ltb_lt in Hpos. rewrite Hpos. cbn [andb].
    now rewrite HW.
Qed.

End ThrottleFacts.

Lemma wait_before_write_and_after_read_witness :
  (forall writer p,
     Z.of_nat (List.length p) = 24 ->
     Bandwidth.LimitedWriter_Write unit strictWaitN nat sink
       (Bandwidth.NewLimitedWriter unit nat writer
          (Bandwidth.mkBandwidthLimiter unit (Some tt) true) canceled) p
     = Bandwidth.Done
         ((0, Some (GoError.errorString "context canceled")),
          Bandwidth.NewLimitedWriter unit nat writer
            (Bandwidth.mkBandwidthLimiter unit (Some tt) true) canceled))
  /\ (forall reader len readErr reader',
        stream24 reader len = ((24, readErr), reader') ->
        0 < 24 ->
        Bandwidth.LimitedReader_Read unit strictWaitN nat stream24
          (Bandwidth.NewLimitedReader unit nat reader
             (Bandwidth.mkBandwidthLimiter unit (Some tt) true) canceled) len
        = Bandwidth.Done
            ((24, Some (GoError.errorString "context canceled")),
             Bandwidth.NewLimitedReader unit nat reader'
               (Bandwidth.mkBandwidthLimiter unit (Some tt) true) canceled)).
Proof.
  apply (wait_before_write_and_after_read unit strictWaitN nat stream24 sink
           tt tt canceled (GoError.errorString "context canceled") 24).
  reflexivity.
Defined.

(** ** Retry controller: the two wrappers *)

Section WrapperFacts.
Import GoStrings GoError Retry RetryCalls.

Variable St : Type.
Variable ctx : Z -> Z -> option error.
Variable rnd : Z -> Q.

(** X29. With the configuration [NewRetryableClientCopyOperation] puts
    in, [ExecuteDownload] and [ExecuteUpload] call the function once at
    least and four times at most; after [WithCustomConfig] the bound is
    the one of the new configuration. *)
Theorem wrappers_call_bounds (func : St -> option error * St) (st : St)
    (custom : RetryConfig) :
  let calls (run : (St * nat -> option error * (St * nat)) -> St * nat ->
                   option error * (St * nat) * list DebugMessage) :=
    snd (snd (fst (run (counting St func) (st, 0%nat)))) in
  (1 <= calls (ExecuteDownload (St * nat) ctx rnd
                 NewRetryableClientCopyOperation) <= 4)%nat
  /\ (1 <= calls (ExecuteUpload (St * nat) ctx rnd
                    NewRetryableClientCopyOperation) <= 4)%nat
  /\ (calls (ExecuteDownload (St * nat) ctx rnd
               (WithCustomConfig NewRetryableClientCopyOperation custom))
      <= Z.to_nat (MaxRetries custom + 1))%nat
  /\ (calls (ExecuteUpload (St * nat) ctx rnd
               (WithCustomConfig NewRetryableClientCopyOperation custom))
      <= Z.to_nat (MaxRetries custom + 1))%nat.
Proof.
  cbv zeta.
  assert (H : forall config name,
            let n := snd (snd (fst (WithRetry (St * nat) (counting St func)
                                      ctx rnd config name (st, 0%nat)))) in
            (n <= Z.to_nat (MaxRetries config + 1))%nat
            /\ (Z.to_nat (MaxRetries config + 1) <> 0%nat -> 1 <= n)%nat).
  { intros config name. cbv zeta. unfold WithRetry.
    pose proof (counted_loop_calls St func ctx rnd config name
                  (Z.to_nat (MaxRetries config + 1)) 0 None (st, 0%nat) [])
      as Hc.
    cbv zeta in Hc. cbn [snd] in Hc.
    destruct (Retry.loop (St * nat) (counting St func) ctx rnd config name
                (Z.to_nat (MaxRetries config + 1)) 0 None (st, 0%nat) [])
      as [[exit s] log].
    cbn [fst snd] in Hc. destruct Hc as [H1 H2].
    destruct exit; cbn [fst snd]; split; intros; try lia;
      specialize (H2 ltac:(assumption)); lia. }
  unfold ExecuteDownload, ExecuteUpload, WithCustomConfig,
    NewRetryableClientCopyOperation. cbn [RetryCalls.config].
  pose proof (H DefaultClientCopyRetryConfig "download") as [D1 D2].
  pose proof (H DefaultClientCopyRetryConfig "upload") as [U1 U2].
  pose proof (H custom "download") as [C1 _].
  pose proof (H custom "upload") as [C2 _].
  change (Z.to_nat (MaxRetries DefaultClientCopyRetryConfig + 1)) with 4%nat
    in D1, D2, U1, U2.
  specialize (D2 ltac:(discriminate)). specialize (U2 ltac:(discriminate)).
  repeat split; assumption.
Qed.

End WrapperFacts.
